(** * trading_bot.py: indicator engine, signal generator, portfolio simulator

    A shallow embedding of [src/trading_bot.py] and the properties of it that
    the specification states.

    Numbers.  Python [float] is IEEE-754 binary64.  The embedding keeps the
    special values the program's behaviour hinges on (signed zero, the two
    infinities, NaN, with the IEEE rules for them) and takes the finite values
    as exact rationals kept in lowest terms: rounding and overflow are outside
    the model.

    Tables.  A pandas [DataFrame] is an object on a heap: a row count (its
    index, whose labels are identified with row positions) and a finite map
    from column names to columns of floats.  Functions receive and return
    references, so in-place column assignment is visible to the caller as it
    is in Python.  A run ends in a value and a heap, or in the exception it
    raised. *)

From Stdlib Require Import QArith Qreduction Lqa Bool.
From stdpp Require Import gmap strings list fin_maps.

(** ** IEEE special values over exact rationals *)

Module IEEE.

Local Open Scope Q_scope.

Inductive float : Type :=
  | Fin (q : Q)      (* a finite value; [Fin 0] is +0.0 *)
  | NZero            (* -0.0 *)
  | PInf
  | NInf
  | NaN.

Definition fin (q : Q) : float := Fin (Qred q).

Definition is_nan (x : float) : bool :=
  match x with NaN => true | _ => false end.

Definition is_inf (x : float) : bool :=
  match x with PInf | NInf => true | _ => false end.

Definition is_zero (x : float) : bool :=
  match x with Fin q => Qeq_bool q 0 | NZero => true | _ => false end.

(* the sign bit *)
Definition signbit (x : float) : bool :=
  match x with
  | Fin q => (Qnum q <? 0)%Z
  | NZero | NInf => true
  | PInf | NaN => false
  end.

Definition fval (x : float) : Q :=
  match x with Fin q => q | _ => 0 end.

Definition fzero (neg : bool) : float := if neg then NZero else Fin 0.
Definition finf (neg : bool) : float := if neg then NInf else PInf.

Definition fneg (x : float) : float :=
  match x with
  | Fin q => if Qeq_bool q 0 then NZero else fin (- q)
  | NZero => Fin 0
  | PInf => NInf
  | NInf => PInf
  | NaN => NaN
  end.

Definition fadd (x y : float) : float :=
  match x, y with
  | NaN, _ | _, NaN => NaN
  | PInf, NInf | NInf, PInf => NaN
  | PInf, _ | _, PInf => PInf
  | NInf, _ | _, NInf => NInf
  | NZero, NZero => NZero
  | NZero, Fin q | Fin q, NZero => fin q
  | Fin a, Fin b => fin (a + b)
  end.

Definition fsub (x y : float) : float := fadd x (fneg y).

Definition fmul (x y : float) : float :=
  if is_nan x || is_nan y then NaN
  else if is_inf x || is_inf y then
    if is_zero x || is_zero y then NaN else finf (xorb (signbit x) (signbit y))
  else if is_zero x || is_zero y then fzero (xorb (signbit x) (signbit y))
  else fin (fval x * fval y).

Definition fdiv (x y : float) : float :=
  if is_nan x || is_nan y then NaN
  else if is_inf x then
    if is_inf y then NaN else finf (xorb (signbit x) (signbit y))
  else if is_inf y then fzero (xorb (signbit x) (signbit y))
  else if is_zero y then
    if is_zero x then NaN else finf (xorb (signbit x) (signbit y))
  else if is_zero x then fzero (xorb (signbit x) (signbit y))
  else fin (fval x / fval y).

(* ordering: NaN is unordered, the two zeros are equal *)
Definition fcmp (x y : float) : option comparison :=
  match x, y with
  | NaN, _ | _, NaN => None
  | PInf, PInf | NInf, NInf => Some Eq
  | PInf, _ | _, NInf => Some Gt
  | NInf, _ | _, PInf => Some Lt
  | _, _ => Some (fval x ?= fval y)
  end.

Definition flt (x y : float) : bool :=
  match fcmp x y with Some Lt => true | _ => false end.
Definition fgt (x y : float) : bool := flt y x.
Definition fle (x y : float) : bool :=
  match fcmp x y with Some Lt | Some Eq => true | _ => false end.
Definition feqb (x y : float) : bool :=
  match fcmp x y with Some Eq => true | _ => false end.

Definition of_nat (n : nat) : float := fin (inject_Z (Z.of_nat n)).

#[global] Instance float_inhabited : Inhabited float := populate NaN.

End IEEE.
Export IEEE.

(** ** The pandas [Series] operations the program uses *)

Module pd.

(* [s.diff()]: no predecessor at the first position *)
Definition diff (xs : list float) : list float :=
  match xs with
  | [] => []
  | _ :: t => NaN :: zip_with fsub t xs
  end.

(* element-wise comparisons; a comparison with NaN is False *)
Definition gt (xs ys : list float) : list bool := zip_with fgt xs ys.
Definition lt (xs ys : list float) : list bool := zip_with flt xs ys.
Definition gt_scalar (xs : list float) (c : float) : list bool :=
  map (fun x => fgt x c) xs.
Definition lt_scalar (xs : list float) (c : float) : list bool :=
  map (fun x => flt x c) xs.

(* [s.where(cond, other)]: keep where [cond] holds, else [other] *)
Definition where_ (xs : list float) (cond : list bool) (other : float)
  : list float :=
  zip_with (fun x (b : bool) => if b then x else other) xs cond.

Definition neg (xs : list float) : list float := map fneg xs.
Definition sub (xs ys : list float) : list float := zip_with fsub xs ys.
Definition div (xs ys : list float) : list float := zip_with fdiv xs ys.
Definition scalar_add (c : float) (xs : list float) : list float :=
  map (fadd c) xs.
Definition scalar_sub (c : float) (xs : list float) : list float :=
  map (fsub c) xs.
Definition scalar_div (c : float) (xs : list float) : list float :=
  map (fdiv c) xs.

Definition fsum (xs : list float) : float :=
  match xs with
  | [] => Fin 0
  | x :: t => fold_left fadd t x
  end.

(* the [w] observations ending at position [i] *)
Definition window (w i : nat) (xs : list float) : list float :=
  take w (drop (S i - w) xs).

(* [s.rolling(window=w).mean()]: min_periods defaults to the window size, so
   the result is NaN until [w] observations are available and whenever one of
   them is NaN *)
Definition rolling_mean (w : nat) (xs : list float) : list float :=
  imap (fun i _ =>
          let win := window w i xs in
          if (w <=? S i)%nat && forallb (fun x => negb (is_nan x)) win
          then fdiv (fsum win) (of_nat w)
          else NaN) xs.

(* [s.ewm(span=span, adjust=False).mean()]: y[0] = x[0],
   y[i] = (1 - alpha) * y[i-1] + alpha * x[i] with alpha = 2 / (span + 1).
   (pandas skips NaN observations; the series handed to it here hold none
   when the closes hold none, and that case is not modelled.) *)
Definition alpha (span : nat) : float :=
  fdiv (Fin 2) (fadd (of_nat span) (Fin 1)).

Fixpoint ewm_from (a prev : float) (xs : list float) : list float :=
  match xs with
  | [] => []
  | x :: t =>
      let y := fadd (fmul (fsub (Fin 1) a) prev) (fmul a x) in
      y :: ewm_from a y t
  end.

Definition ewm_mean (span : nat) (xs : list float) : list float :=
  match xs with
  | [] => []
  | x :: t => x :: ewm_from (alpha span) x t
  end.

(* [col[mask] = v], as [df.loc[mask, c] = v] does on column [c] *)
Fixpoint mask_assign (mask : list bool) (v : float) (xs : list float)
  : list float :=
  match mask, xs with
  | b :: mask', x :: xs' => (if b then v else x) :: mask_assign mask' v xs'
  | _, _ => xs
  end.

End pd.

(** ** Tables on a heap *)

Record frame : Type := Frame {
  nrows : nat;
  cols : gmap string (list float)
}.

(* references and the heap they point into *)
Abbreviation loc := nat (only parsing).
Abbreviation heap := (list frame) (only parsing).

Inductive exn : Type :=
  | KeyError (c : string)   (* a column that is not there *)
  | IndexError              (* a position past the end *)
  | Dangling.               (* a reference to no object: cannot arise in Python *)

Definition M (A : Type) : Type := heap -> exn + (A * heap).

Definition ret {A} (a : A) : M A := fun h => inr (a, h).
Definition raise {A} (e : exn) : M A := fun _ => inl e.
Definition bind {A B} (m : M A) (k : A -> M B) : M B :=
  fun h => match m h with
           | inl e => inl e
           | inr (a, h') => k a h'
           end.

Declare Scope py_scope.
Delimit Scope py_scope with py.
Notation "x <- m ;; k" := (bind m (fun x => k))
  (at level 100, m at next level, right associativity) : py_scope.
Notation "m ;; k" := (bind m (fun _ => k))
  (at level 100, right associativity) : py_scope.
Local Open Scope py_scope.

Definition deref (l : loc) : M frame :=
  fun h => match h !! l with
           | Some f => inr (f, h)
           | None => inl Dangling
           end.

Definition store (l : loc) (f : frame) : M unit :=
  fun h => match h !! l with
           | Some _ => inr (tt, <[l := f]> h)
           | None => inl Dangling
           end.

(* a new object *)
Definition alloc (f : frame) : M loc :=
  fun h => inr (length h, h ++ [f]).

(* [pd.DataFrame(index=other.index)]: the rows of [other], no column *)
Definition DataFrame (index_of : loc) : M loc :=
  f <- deref index_of ;; alloc (Frame (nrows f) ∅).

(* [len(df)] *)
Definition len (l : loc) : M nat :=
  f <- deref l ;; ret (nrows f).

(* [df[c]] *)
Definition getcol (l : loc) (c : string) : M (list float) :=
  f <- deref l ;;
  match cols f !! c with
  | Some xs => ret xs
  | None => raise (KeyError c)
  end.

(* [df[c] = series] *)
Definition setcol (l : loc) (c : string) (xs : list float) : M unit :=
  f <- deref l ;; store l (Frame (nrows f) (<[c := xs]> (cols f))).

(* [df[c] = scalar]: broadcast over the rows *)
Definition setcol_scalar (l : loc) (c : string) (v : float) : M unit :=
  f <- deref l ;; store l (Frame (nrows f) (<[c := replicate (nrows f) v]> (cols f))).

(* [df[c].iloc[i]] *)
Definition iloc (l : loc) (c : string) (i : nat) : M float :=
  xs <- getcol l c ;;
  match xs !! i with
  | Some x => ret x
  | None => raise IndexError
  end.

(* [df.index[i]]: the label of row [i], which is its position *)
Definition index_at (l : loc) (i : nat) : M nat :=
  f <- deref l ;;
  if (i <? nrows f)%nat then ret i else raise IndexError.

(* [df.loc[mask, c] = v] *)
Definition loc_mask_assign (l : loc) (mask : list bool) (c : string) (v : float)
  : M unit :=
  xs <- getcol l c ;; setcol l c (pd.mask_assign mask v xs).

(* [df.loc[label, c] = v] for a label of the index (a label past the rows
   would add a row in pandas; the loop of [execute_orders] makes none) *)
Definition loc_assign (l : loc) (label : nat) (c : string) (v : float)
  : M unit :=
  xs <- getcol l c ;; setcol l c (<[label := v]> xs).

(* [df.fillna(v)]: a new table *)
Definition fillna (l : loc) (v : float) : M loc :=
  f <- deref l ;;
  alloc (Frame (nrows f)
           ((fun xs => map (fun x => if is_nan x then v else x) xs) <$> cols f)).

(* [for i in range(n): body i] *)
Fixpoint for_range_from (start n : nat) (body : nat -> M unit) : M unit :=
  match n with
  | O => ret tt
  | S n' => body start ;; for_range_from (S start) n' body
  end.
Definition for_range (n : nat) (body : nat -> M unit) : M unit :=
  for_range_from 0 n body.


(** ** The program *)

(** *** Indicator engine *)

(* the two trailing means of [calculate_RSI], named so that statements can
   speak of them *)
Definition RSI_gain (window : nat) (close : list float) : list float :=
  let delta := pd.diff close in
  pd.rolling_mean window (pd.where_ delta (pd.gt_scalar delta (Fin 0)) (Fin 0)).

Definition RSI_loss (window : nat) (close : list float) : list float :=
  let delta := pd.diff close in
  pd.rolling_mean window
    (pd.neg (pd.where_ delta (pd.lt_scalar delta (Fin 0)) (Fin 0))).

Definition calculate_RSI (data : loc) (window : nat) : M (list float) :=
  close <- getcol data "Close" ;;
  let gain := RSI_gain window close in
  let loss := RSI_loss window close in
  let RS := pd.div gain loss in
  let RSI := pd.scalar_sub (Fin 100) (pd.scalar_div (Fin 100) (pd.scalar_add (Fin 1) RS)) in
  ret RSI.

Definition calculate_MACD (data : loc) (short_window long_window signal_window : nat)
  : M (list float * list float * list float) :=
  close <- getcol data "Close" ;;
  let short_ema := pd.ewm_mean short_window close in
  let long_ema := pd.ewm_mean long_window close in
  let macd := pd.sub short_ema long_ema in
  let signal := pd.ewm_mean signal_window macd in
  let histogram := pd.sub macd signal in
  ret (macd, signal, histogram).

(* assigns the indicator columns into the table it was given and returns
   that same table *)
Definition calculate_technical_indicators (data : loc) : M loc :=
  close <- getcol data "Close" ;;
  setcol data "SMA_20" (pd.rolling_mean 20 close) ;;
  close <- getcol data "Close" ;;
  setcol data "SMA_50" (pd.rolling_mean 50 close) ;;
  rsi <- calculate_RSI data 14 ;;
  setcol data "RSI" rsi ;;
  r <- calculate_MACD data 12 26 9 ;;
  setcol data "MACD" r.1.1 ;;
  setcol data "MACD_signal" r.1.2 ;;
  setcol data "MACD_hist" r.2 ;;
  ret data.

(** *** Signal generator *)

Definition trading_strategy (data : loc) : M loc :=
  signals <- DataFrame data ;;
  setcol_scalar signals "signal" (Fin 0) ;;
  sma20 <- getcol data "SMA_20" ;;
  sma50 <- getcol data "SMA_50" ;;
  loc_mask_assign signals (pd.gt sma20 sma50) "signal" (Fin 1) ;;
  rsi <- getcol data "RSI" ;;
  loc_mask_assign signals (pd.gt_scalar rsi (Fin 70)) "signal" (Fin (-1)) ;;
  macd <- getcol data "MACD" ;;
  macd_signal <- getcol data "MACD_signal" ;;
  loc_mask_assign signals (pd.gt macd macd_signal) "signal" (Fin 1) ;;
  macd <- getcol data "MACD" ;;
  macd_signal <- getcol data "MACD_signal" ;;
  loc_mask_assign signals (pd.lt macd macd_signal) "signal" (Fin (-1)) ;;
  signal <- getcol signals "signal" ;;
  setcol signals "positions" (pd.diff signal) ;;
  ret signals.

Definition generate_signals (data : loc) : M loc :=
  signals <- trading_strategy data ;;
  ret signals.

(** *** Portfolio simulator *)

(* one turn of the loop of [execute_orders] *)
Definition order_step (data signals portfolio : loc) (i : nat) : M unit :=
  p <- iloc signals "positions" i ;;
  (if feqb p (Fin 1) then
     cash_i <- iloc portfolio "cash" i ;;
     close_i <- iloc data "Close" i ;;
     let shares := fdiv cash_i close_i in
     l <- index_at data (i + 1) ;;
     loc_assign portfolio l "cash" (Fin 0) ;;
     l <- index_at data (i + 1) ;;
     loc_assign portfolio l "holdings" shares
   else if feqb p (Fin (-1)) then
     holdings_i <- iloc portfolio "holdings" i ;;
     close_i <- iloc data "Close" i ;;
     l <- index_at data (i + 1) ;;
     loc_assign portfolio l "cash" (fmul holdings_i close_i) ;;
     l <- index_at data (i + 1) ;;
     loc_assign portfolio l "holdings" (Fin 0)
   else ret tt) ;;
  cash' <- iloc portfolio "cash" (i + 1) ;;
  holdings' <- iloc portfolio "holdings" (i + 1) ;;
  close_i <- iloc data "Close" i ;;
  l <- index_at data (i + 1) ;;
  loc_assign portfolio l "total" (fadd cash' (fmul holdings' close_i)).

Definition execute_orders (data signals : loc) (initial_capital : float)
  : M loc :=
  empty <- DataFrame signals ;;
  positions <- fillna empty (Fin 0) ;;
  portfolio <- DataFrame signals ;;
  setcol_scalar portfolio "cash" initial_capital ;;
  setcol_scalar portfolio "holdings" (Fin 0) ;;
  setcol_scalar portfolio "total" initial_capital ;;
  n <- len signals ;;
  for_range (n - 1) (order_step data signals portfolio) ;;
  ret portfolio.

(* the script: indicators, signals, orders on the downloaded table *)
Definition main (data : loc) (initial_capital : float) : M loc :=
  data <- calculate_technical_indicators data ;;
  signals <- generate_signals data ;;
  execute_orders data signals initial_capital.

(* [portfolio['total'].iloc[-1]], the value the script reports *)
Definition final_total (portfolio : loc) : M float :=
  total <- getcol portfolio "total" ;;
  match last total with
  | Some x => ret x
  | None => raise IndexError
  end.

(** ** Observations and the loop as a fold *)

(* what a run gives its caller: the exception or the value *)
Definition value {A} (r : exn + (A * list frame)) : exn + A :=
  match r with
  | inl e => inl e
  | inr (a, _) => inr a
  end.

(* the two columns [generate_signals] hands back *)
Definition signals_of (data : loc) : M (list float * list float) :=
  signals <- generate_signals data ;;
  signal <- getcol signals "signal" ;;
  positions <- getcol signals "positions" ;;
  ret (signal, positions).

(* the 'signal' column after the four masked assignments of
   [trading_strategy] *)
Definition signal_column (n : nat) (sma20 sma50 rsi macd macd_signal : list float)
  : list float :=
  pd.mask_assign (pd.lt macd macd_signal) (Fin (-1))
    (pd.mask_assign (pd.gt macd macd_signal) (Fin 1)
       (pd.mask_assign (pd.gt_scalar rsi (Fin 70)) (Fin (-1))
          (pd.mask_assign (pd.gt sma20 sma50) (Fin 1)
             (replicate n (Fin 0))))).

(* The five rules of the specification, applied to one step in their fixed
   order, a later rule overwriting an earlier one. *)
Definition spec_rules (sma20 sma50 rsi macd macd_signal : float) : float :=
  let s := Fin 0 in
  let s := if fgt sma20 sma50 then Fin 1 else s in
  let s := if fgt rsi (Fin 70) then Fin (-1) else s in
  let s := if fgt macd macd_signal then Fin 1 else s in
  let s := if flt macd macd_signal then Fin (-1) else s in
  s.

(* the three values a signal takes *)
Definition is_signal (x : float) : Prop :=
  x = Fin (-1) \/ x = Fin 0 \/ x = Fin 1.

(* the RSI of one step from its two trailing means, as [calculate_RSI]
   computes it element by element *)
Definition rsi_of (g l : float) : float :=
  fsub (Fin 100) (fdiv (Fin 100) (fadd (Fin 1) (fdiv g l))).

(* xs[lo] + ... + xs[hi] *)
Definition partial_sum (xs : list float) (lo hi : nat) : float :=
  foldl fadd (Fin 0) (take (S hi - lo) (drop lo xs)).

(* table [l] of heap [h] has column [c], one entry per row *)
Definition has_col (h : heap) (l : loc) (c : string) (xs : list float) : Prop :=
  exists f, h !! l = Some f /\ cols f !! c = Some xs /\ length xs = nrows f.

(* the three columns of a portfolio *)
Record account : Type := Account {
  cash : list float;
  holdings : list float;
  total : list float
}.

Definition read_portfolio (portfolio : loc) : M account :=
  c <- getcol portfolio "cash" ;;
  hl <- getcol portfolio "holdings" ;;
  t <- getcol portfolio "total" ;;
  ret (Account c hl t).

(* the trajectory [execute_orders] hands back *)
Definition trajectory (data signals : loc) (initial_capital : float)
  : M account :=
  portfolio <- execute_orders data signals initial_capital ;;
  read_portfolio portfolio.

(* the number the script prints after [execute_orders] *)
Definition report (data signals : loc) (initial_capital : float) : M float :=
  portfolio <- execute_orders data signals initial_capital ;;
  final_total portfolio.

(* The transition rule in the specification's words: a buy trigger is +1
   with the account out of position, a sell trigger is -1 with holdings > 0,
   and every other step carries cash and holdings forward. *)
Definition spec_buy_trigger (p holdings_i : float) : bool :=
  feqb p (Fin 1) && is_zero holdings_i.
Definition spec_sell_trigger (p holdings_i : float) : bool :=
  feqb p (Fin (-1)) && fgt holdings_i (Fin 0).
Definition carries_forward (positions : list float) (a : account) : Prop :=
  forall i p c hl,
    S i < length positions -> positions !! i = Some p ->
    cash a !! i = Some c -> holdings a !! i = Some hl ->
    spec_buy_trigger p hl = false -> spec_sell_trigger p hl = false ->
    cash a !! S i = Some c /\ holdings a !! S i = Some hl.

(* a price: a finite, strictly positive number *)
Definition positive_price (x : float) : Prop :=
  exists q, x = Fin q /\ (0 < q)%Q.

(* a table of [closes] and a table of position changes, as two objects *)
Definition market (close positions : list float) : list frame :=
  [Frame (length close) {["Close" := close]};
   Frame (length positions) {["positions" := positions]}].

(* the columns [calculate_technical_indicators] assigns *)
Definition indicator_columns : list string :=
  ["SMA_20"; "SMA_50"; "RSI"; "MACD"; "MACD_signal"; "MACD_hist"].

(* the three series of [calculate_MACD] *)
Definition MACD_line (short_window long_window : nat) (close : list float)
  : list float :=
  pd.sub (pd.ewm_mean short_window close) (pd.ewm_mean long_window close).
Definition MACD_signal_line (short_window long_window signal_window : nat)
  (close : list float) : list float :=
  pd.ewm_mean signal_window (MACD_line short_window long_window close).
Definition MACD_histogram (short_window long_window signal_window : nat)
  (close : list float) : list float :=
  pd.sub (MACD_line short_window long_window close)
         (MACD_signal_line short_window long_window signal_window close).

(* the RSI series of [calculate_RSI] *)
Definition RSI_series (window : nat) (close : list float) : list float :=
  pd.scalar_sub (Fin 100)
    (pd.scalar_div (Fin 100)
       (pd.scalar_add (Fin 1)
          (pd.div (RSI_gain window close) (RSI_loss window close)))).

(* the column map of the price table once the engine has run on it *)
Definition with_indicators (close : list float) (m : gmap string (list float))
  : gmap string (list float) :=
  <["MACD_hist" := MACD_histogram 12 26 9 close]>
    (<["MACD_signal" := MACD_signal_line 12 26 9 close]>
       (<["MACD" := MACD_line 12 26 close]>
          (<["RSI" := RSI_series 14 close]>
             (<["SMA_50" := pd.rolling_mean 50 close]>
                (<["SMA_20" := pd.rolling_mean 20 close]> m))))).

(* a table holding the five indicator columns the strategy reads *)
Definition indicator_table (sma20 sma50 rsi macd macd_signal : list float)
  : list frame :=
  [Frame (length sma20)
     (<["SMA_20" := sma20]> (<["SMA_50" := sma50]> (<["RSI" := rsi]>
        (<["MACD" := macd]> {["MACD_signal" := macd_signal]}))))].

(* a table of closes alone, as the download hands it over *)
Definition price_table (close : list float) : list frame :=
  [Frame (length close) {["Close" := close]}].

(* the column map of a portfolio table, in the order the columns are made *)
Definition book (a : account) : gmap string (list float) :=
  <["total" := total a]> (<["holdings" := holdings a]> (<["cash" := cash a]> ∅)).

(* what one turn of the loop does to the three columns *)
Definition turn (close positions : list float) (a : account) (i : nat)
  : account :=
  let p := positions !!! i in
  let x := close !!! i in
  let a1 :=
    if feqb p (Fin 1) then
      Account (<[S i := Fin 0]> (cash a))
              (<[S i := fdiv (cash a !!! i) x]> (holdings a)) (total a)
    else if feqb p (Fin (-1)) then
      Account (<[S i := fmul (holdings a !!! i) x]> (cash a))
              (<[S i := Fin 0]> (holdings a)) (total a)
    else a in
  Account (cash a1) (holdings a1)
          (<[S i := fadd (cash a1 !!! S i) (fmul (holdings a1 !!! S i) x)]> (total a1)).

Definition opening (n : nat) (initial_capital : float) : account :=
  Account (replicate n initial_capital) (replicate n (Fin 0))
          (replicate n initial_capital).

(* the columns after the first [k] turns *)
Definition turns (close positions : list float) (initial_capital : float)
  (k : nat) : account :=
  foldl (turn close positions) (opening (length positions) initial_capital)
        (seq 0 k).

(** ** Further observations *)

(* every column of a table has one entry per row *)
Definition wf_table (f : frame) : Prop :=
  forall c xs, cols f !! c = Some xs -> length xs = nrows f.

(* the sum of a list of rationals *)
Definition Qsum (qs : list Q) : Q := foldr Qplus 0%Q qs.

(* the whole script on a price table: the portfolio it ends with, and the
   number it prints *)
Definition simulate (data : loc) (initial_capital : float) : M account :=
  portfolio <- main data initial_capital ;;
  read_portfolio portfolio.

Definition printed_total (data : loc) (initial_capital : float) : M float :=
  portfolio <- main data initial_capital ;;
  final_total portfolio.

(* the position changes a difference of two signals can be *)
Definition is_position_change (x : float) : Prop :=
  x = Fin (-2) \/ x = Fin (-1) \/ x = Fin 0 \/ x = Fin 1 \/ x = Fin 2.

(* the columns [trading_strategy] reads, in the order it reads them *)
Definition strategy_columns : list string :=
  ["SMA_20"; "SMA_50"; "RSI"; "MACD"; "MACD_signal"].

Definition absent (d : frame) (c : string) : bool :=
  match cols d !! c with
  | None => true
  | Some _ => false
  end.

Definition first_missing (d : frame) : option string :=
  find (absent d) strategy_columns.

(* the signals the script derives from a column of closes *)
Definition pipeline_signal (close : list float) : list float :=
  signal_column (length close)
    (pd.rolling_mean 20 close) (pd.rolling_mean 50 close)
    (RSI_series 14 close) (MACD_line 12 26 close)
    (MACD_signal_line 12 26 9 close).

(* the signals of the script, read after its first two stages *)
Definition pipeline_signals_of (data : loc) : M (list float * list float) :=
  data <- calculate_technical_indicators data ;;
  signals_of data.

(* a finite float whose value is the rational [q] *)
Definition is_fin (q : Q) (x : float) : Prop :=
  exists r, x = Fin r /\ (r == q)%Q.

(** ** Running the primitives *)

Section run.
Context {A B : Type}.

Lemma run_bind (m : M A) (k : A -> M B) h a h' :
  m h = inr (a, h') -> bind m k h = k a h'.
Proof. intros E. unfold bind. by rewrite E. Qed.

Lemma run_bind_raise (m : M A) (k : A -> M B) h e :
  m h = inl e -> bind m k h = inl e.
Proof. intros E. unfold bind. by rewrite E. Qed.

Lemma bind_inr_inv (m : M A) (k : A -> M B) h b h2 :
  bind m k h = inr (b, h2) ->
  exists a h1, m h = inr (a, h1) /\ k a h1 = inr (b, h2).
Proof.
  unfold bind. destruct (m h) as [e | [a h1]]; [done |]. eauto.
Qed.
End run.

Lemma deref_ok h l f : h !! l = Some f -> deref l h = inr (f, h).
Proof. intros E. unfold deref. by rewrite E. Qed.

Lemma store_ok h l f g :
  h !! l = Some f -> store l g h = inr (tt, <[l := g]> h).
Proof. intros E. unfold store. by rewrite E. Qed.

Lemma len_ok h l f : h !! l = Some f -> len l h = inr (nrows f, h).
Proof. intros E. unfold len. by rewrite (run_bind _ _ _ _ _ (deref_ok _ _ _ E)). Qed.

Lemma getcol_ok h l f c xs :
  h !! l = Some f -> cols f !! c = Some xs -> getcol l c h = inr (xs, h).
Proof.
  intros E Ec. unfold getcol.
  rewrite (run_bind _ _ _ _ _ (deref_ok _ _ _ E)). by rewrite Ec.
Qed.

Lemma getcol_missing h l f c :
  h !! l = Some f -> cols f !! c = None -> getcol l c h = inl (KeyError c).
Proof.
  intros E Ec. unfold getcol.
  rewrite (run_bind _ _ _ _ _ (deref_ok _ _ _ E)). by rewrite Ec.
Qed.

Lemma setcol_ok h l f c xs :
  h !! l = Some f ->
  setcol l c xs h = inr (tt, <[l := Frame (nrows f) (<[c := xs]> (cols f))]> h).
Proof.
  intros E. unfold setcol.
  rewrite (run_bind _ _ _ _ _ (deref_ok _ _ _ E)). by apply (store_ok _ _ f).
Qed.

Lemma setcol_scalar_ok h l f c v :
  h !! l = Some f ->
  setcol_scalar l c v h =
  inr (tt, <[l := Frame (nrows f) (<[c := replicate (nrows f) v]> (cols f))]> h).
Proof.
  intros E. unfold setcol_scalar.
  rewrite (run_bind _ _ _ _ _ (deref_ok _ _ _ E)). by apply (store_ok _ _ f).
Qed.

Lemma iloc_ok h l f c xs i x :
  h !! l = Some f -> cols f !! c = Some xs -> xs !! i = Some x ->
  iloc l c i h = inr (x, h).
Proof.
  intros E Ec Ei. unfold iloc.
  rewrite (run_bind _ _ _ _ _ (getcol_ok _ _ _ _ _ E Ec)). by rewrite Ei.
Qed.

Lemma iloc_past_end h l f c xs i :
  h !! l = Some f -> cols f !! c = Some xs -> length xs <= i ->
  iloc l c i h = inl IndexError.
Proof.
  intros E Ec Ei. unfold iloc.
  rewrite (run_bind _ _ _ _ _ (getcol_ok _ _ _ _ _ E Ec)).
  by rewrite (lookup_ge_None_2 xs i Ei).
Qed.

Lemma index_at_ok h l f i :
  h !! l = Some f -> i < nrows f -> index_at l i h = inr (i, h).
Proof.
  intros E Hi. unfold index_at.
  rewrite (run_bind _ _ _ _ _ (deref_ok _ _ _ E)).
  apply Nat.ltb_lt in Hi. by rewrite Hi.
Qed.

Lemma index_at_past_end h l f i :
  h !! l = Some f -> nrows f <= i -> index_at l i h = inl IndexError.
Proof.
  intros E Hi. unfold index_at.
  rewrite (run_bind _ _ _ _ _ (deref_ok _ _ _ E)).
  apply Nat.ltb_ge in Hi. by rewrite Hi.
Qed.

Lemma loc_assign_ok h l f c xs k v :
  h !! l = Some f -> cols f !! c = Some xs ->
  loc_assign l k c v h =
  inr (tt, <[l := Frame (nrows f) (<[c := <[k := v]> xs]> (cols f))]> h).
Proof.
  intros E Ec. unfold loc_assign.
  rewrite (run_bind _ _ _ _ _ (getcol_ok _ _ _ _ _ E Ec)). by apply (setcol_ok _ _ f).
Qed.

Lemma loc_mask_assign_ok h l f c xs mask v :
  h !! l = Some f -> cols f !! c = Some xs ->
  loc_mask_assign l mask c v h =
  inr (tt, <[l := Frame (nrows f) (<[c := pd.mask_assign mask v xs]> (cols f))]> h).
Proof.
  intros E Ec. unfold loc_mask_assign.
  rewrite (run_bind _ _ _ _ _ (getcol_ok _ _ _ _ _ E Ec)). by apply (setcol_ok _ _ f).
Qed.

Lemma DataFrame_ok h l f :
  h !! l = Some f -> DataFrame l h = inr (length h, h ++ [Frame (nrows f) ∅]).
Proof.
  intros E. unfold DataFrame.
  by rewrite (run_bind _ _ _ _ _ (deref_ok _ _ _ E)).
Qed.

Lemma fillna_ok h l f v :
  h !! l = Some f ->
  fillna l v h =
  inr (length h,
       h ++ [Frame (nrows f)
               ((fun xs => map (fun x => if is_nan x then v else x) xs) <$> cols f)]).
Proof.
  intros E. unfold fillna.
  by rewrite (run_bind _ _ _ _ _ (deref_ok _ _ _ E)).
Qed.

Lemma book_cash a : book a !! "cash" = Some (cash a).
Proof. done. Qed.
Lemma book_holdings a : book a !! "holdings" = Some (holdings a).
Proof. done. Qed.
Lemma book_total a : book a !! "total" = Some (total a).
Proof. done. Qed.

Lemma book_set_cash a xs :
  <["cash" := xs]> (book a) = book (Account xs (holdings a) (total a)).
Proof.
  unfold book; simpl.
  rewrite (insert_insert_ne _ "cash" "total") by done.
  rewrite (insert_insert_ne _ "cash" "holdings") by done.
  by rewrite insert_insert_eq.
Qed.

Lemma book_set_holdings a xs :
  <["holdings" := xs]> (book a) = book (Account (cash a) xs (total a)).
Proof.
  unfold book; simpl.
  rewrite (insert_insert_ne _ "holdings" "total") by done.
  by rewrite insert_insert_eq.
Qed.

Lemma book_set_total a xs :
  <["total" := xs]> (book a) = book (Account (cash a) (holdings a) xs).
Proof. unfold book; simpl. by rewrite insert_insert_eq. Qed.

Section heap_update.
Context (H : heap) (lp : loc).
Hypothesis Hlp : lp < length H.

Lemma upd_same g : <[lp := g]> H !! lp = Some g.
Proof. by apply list_lookup_insert_eq. Qed.

Lemma upd_other g l : lp <> l -> <[lp := g]> H !! l = H !! l.
Proof. apply list_lookup_insert_ne. Qed.
End heap_update.

(* the two cell assignments of a buy or a sell *)
Lemma assign_pair_ok H ld lp d n a i v w :
  H !! ld = Some d -> H !! lp = Some (Frame n (book a)) -> lp <> ld ->
  S i < nrows d ->
  (l <- index_at ld (i + 1) ;; loc_assign lp l "cash" v ;;
   l <- index_at ld (i + 1) ;; loc_assign lp l "holdings" w) H =
  inr (tt, <[lp := Frame n (book (Account (<[S i := v]> (cash a))
                                          (<[S i := w]> (holdings a))
                                          (total a)))]> H).
Proof.
  intros Hd Hp Hne Hi.
  assert (Hlt : lp < length H) by (eapply lookup_lt_Some; eauto).
  rewrite Nat.add_1_r.
  rewrite (run_bind _ _ _ _ _ (index_at_ok _ _ _ _ Hd Hi)).
  rewrite (run_bind _ _ _ _ _ (loc_assign_ok _ _ _ _ _ _ _ Hp (book_cash a))).
  simpl nrows; simpl cols. rewrite book_set_cash.
  set (H1 := <[lp := _]> H).
  assert (Hd1 : H1 !! ld = Some d) by (unfold H1; by rewrite upd_other).
  assert (Hp1 : H1 !! lp = Some (Frame n (book (Account (<[S i := v]> (cash a)) (holdings a) (total a)))))
    by (unfold H1; by rewrite upd_same).
  rewrite (run_bind _ _ _ _ _ (index_at_ok _ _ _ _ Hd1 Hi)).
  rewrite (loc_assign_ok _ _ _ _ _ _ _ Hp1 (book_holdings _)).
  simpl nrows; simpl cols. rewrite book_set_holdings. simpl.
  unfold H1. by rewrite list_insert_insert_eq.
Qed.

(* the valuation that ends every turn *)
Lemma assign_total_ok H ld lp d n a i close c hl x :
  H !! ld = Some d -> cols d !! "Close" = Some close ->
  H !! lp = Some (Frame n (book a)) -> lp <> ld ->
  S i < nrows d -> close !! i = Some x ->
  cash a !! S i = Some c -> holdings a !! S i = Some hl ->
  (cash' <- iloc lp "cash" (i + 1) ;;
   holdings' <- iloc lp "holdings" (i + 1) ;;
   close_i <- iloc ld "Close" i ;;
   l <- index_at ld (i + 1) ;;
   loc_assign lp l "total" (fadd cash' (fmul holdings' close_i))) H =
  inr (tt, <[lp := Frame n (book (Account (cash a) (holdings a)
                                     (<[S i := fadd c (fmul hl x)]> (total a))))]> H).
Proof.
  intros Hd Hc Hp Hne Hi Hx Hca Hho.
  rewrite Nat.add_1_r.
  rewrite (run_bind _ _ _ _ _ (iloc_ok _ _ _ _ _ _ _ Hp (book_cash a) Hca)).
  rewrite (run_bind _ _ _ _ _ (iloc_ok _ _ _ _ _ _ _ Hp (book_holdings a) Hho)).
  rewrite (run_bind _ _ _ _ _ (iloc_ok _ _ _ _ _ _ _ Hd Hc Hx)).
  rewrite (run_bind _ _ _ _ _ (index_at_ok _ _ _ _ Hd Hi)).
  rewrite (loc_assign_ok _ _ _ _ _ _ _ Hp (book_total a)).
  simpl nrows; simpl cols. by rewrite book_set_total.
Qed.

Lemma order_step_ok H ld ls lp d s close ps n a i :
  H !! ld = Some d -> cols d !! "Close" = Some close ->
  H !! ls = Some s -> cols s !! "positions" = Some ps ->
  H !! lp = Some (Frame n (book a)) -> lp <> ld -> lp <> ls ->
  i < length ps -> S i < nrows d -> i < length close ->
  S i < length (cash a) -> S i < length (holdings a) ->
  order_step ld ls lp i H =
  inr (tt, <[lp := Frame n (book (turn close ps a i))]> H).
Proof.
  intros Hd Hc Hs Hps Hp Hnd Hns Hi Hid Hic Hca Hho.
  assert (Hlt : lp < length H) by (eapply lookup_lt_Some; eauto).
  destruct (lookup_lt_is_Some_2 ps i Hi) as [p Ep].
  destruct (lookup_lt_is_Some_2 close i Hic) as [x Ex].
  destruct (lookup_lt_is_Some_2 (cash a) i) as [ci Eci]; [lia |].
  destruct (lookup_lt_is_Some_2 (holdings a) i) as [hi Ehi]; [lia |].
  unfold order_step, turn.
  rewrite (list_lookup_total_correct _ _ _ Ep), (list_lookup_total_correct _ _ _ Ex).
  rewrite (list_lookup_total_correct _ _ _ Eci), (list_lookup_total_correct _ _ _ Ehi).
  rewrite (run_bind _ _ _ _ _ (iloc_ok _ _ _ _ _ _ _ Hs Hps Ep)).
  destruct (feqb p (Fin 1)); [| destruct (feqb p (Fin (-1)))].
  - erewrite run_bind; cycle 1.
    { rewrite (run_bind _ _ _ _ _ (iloc_ok _ _ _ _ _ _ _ Hp (book_cash a) Eci)).
      rewrite (run_bind _ _ _ _ _ (iloc_ok _ _ _ _ _ _ _ Hd Hc Ex)).
      by apply (assign_pair_ok _ _ _ d). }
    set (a1 := Account _ _ _).
    assert (Hp1 : <[lp := Frame n (book a1)]> H !! lp = Some (Frame n (book a1)))
      by by rewrite upd_same.
    destruct (lookup_lt_is_Some_2 (cash a1) (S i)) as [c1 Ec1];
      [unfold a1; simpl; by rewrite length_insert |].
    destruct (lookup_lt_is_Some_2 (holdings a1) (S i)) as [h1 Eh1];
      [unfold a1; simpl; by rewrite length_insert |].
    rewrite (list_lookup_total_correct _ _ _ Ec1), (list_lookup_total_correct _ _ _ Eh1).
    erewrite assign_total_ok; eauto; [| by rewrite upd_other].
    by rewrite list_insert_insert_eq.
  - erewrite run_bind; cycle 1.
    { rewrite (run_bind _ _ _ _ _ (iloc_ok _ _ _ _ _ _ _ Hp (book_holdings a) Ehi)).
      rewrite (run_bind _ _ _ _ _ (iloc_ok _ _ _ _ _ _ _ Hd Hc Ex)).
      by apply (assign_pair_ok _ _ _ d). }
    set (a1 := Account _ _ _).
    assert (Hp1 : <[lp := Frame n (book a1)]> H !! lp = Some (Frame n (book a1)))
      by by rewrite upd_same.
    destruct (lookup_lt_is_Some_2 (cash a1) (S i)) as [c1 Ec1];
      [unfold a1; simpl; by rewrite length_insert |].
    destruct (lookup_lt_is_Some_2 (holdings a1) (S i)) as [h1 Eh1];
      [unfold a1; simpl; by rewrite length_insert |].
    rewrite (list_lookup_total_correct _ _ _ Ec1), (list_lookup_total_correct _ _ _ Eh1).
    erewrite assign_total_ok; eauto; [| by rewrite upd_other].
    by rewrite list_insert_insert_eq.
  - rewrite (run_bind _ _ _ _ _ (eq_refl : ret tt H = inr (tt, H))).
    destruct (lookup_lt_is_Some_2 (cash a) (S i) Hca) as [c1 Ec1].
    destruct (lookup_lt_is_Some_2 (holdings a) (S i) Hho) as [h1 Eh1].
    rewrite (list_lookup_total_correct _ _ _ Ec1), (list_lookup_total_correct _ _ _ Eh1).
    erewrite assign_total_ok; eauto.
Qed.

Lemma turn_lengths close ps a i :
  length (cash (turn close ps a i)) = length (cash a) /\
  length (holdings (turn close ps a i)) = length (holdings a) /\
  length (total (turn close ps a i)) = length (total a).
Proof.
  unfold turn.
  destruct (feqb _ (Fin 1)); [| destruct (feqb _ (Fin (-1)))]; simpl;
    rewrite ?length_insert; done.
Qed.

(* the loop is the fold of [turn], as long as it stays within the tables *)
Lemma for_range_ok ld ls lp d s close ps n k :
  forall start a H,
  H !! ld = Some d -> cols d !! "Close" = Some close ->
  H !! ls = Some s -> cols s !! "positions" = Some ps ->
  H !! lp = Some (Frame n (book a)) -> lp <> ld -> lp <> ls ->
  (forall i, start <= i < start + k ->
             S i < length ps /\ S i < nrows d /\ i < length close) ->
  length (cash a) = length ps -> length (holdings a) = length ps ->
  for_range_from start k (order_step ld ls lp) H =
  inr (tt, <[lp := Frame n (book (foldl (turn close ps) a (seq start k)))]> H).
Proof.
  induction k as [| k IH]; intros start a H Hd Hc Hs Hps Hp Hnd Hns Hin Hca Hho.
  - simpl. unfold ret. by rewrite (list_insert_id _ _ _ Hp).
  - simpl.
    destruct (Hin start) as (H1 & H2 & H3); [lia |].
    assert (Hlt : lp < length H) by (eapply lookup_lt_Some; eauto).
    rewrite (run_bind _ _ _ _ _
               (order_step_ok H ld ls lp d s close ps n a start
                  Hd Hc Hs Hps Hp Hnd Hns ltac:(lia) H2 H3 ltac:(lia) ltac:(lia))).
    destruct (turn_lengths close ps a start) as (L1 & L2 & _).
    rewrite (IH (S start) (turn close ps a start)); try done.
    + by rewrite list_insert_insert_eq.
    + by rewrite upd_other.
    + by rewrite upd_other.
    + by rewrite upd_same.
    + intros i Hi. apply Hin. lia.
    + lia.
    + lia.
Qed.

(* [execute_orders] up to its loop: three new tables, the last one the
   portfolio with its three columns filled with their opening values *)
Lemma execute_orders_setup h ld ls s cap :
  h !! ls = Some s ->
  let n := nrows s in
  let lp := length h + 2 in
  execute_orders ld ls cap h =
  (for_range (n - 1) (order_step ld ls lp) ;; ret lp)
    (h ++ [Frame n ∅; Frame n ∅; Frame n (book (opening n cap))]).
Proof.
  intros Hs n lp.
  assert (Hls : ls < length h) by (by eapply lookup_lt_Some).
  unfold execute_orders.
  rewrite (run_bind _ _ _ _ _ (DataFrame_ok _ _ _ Hs)).
  erewrite run_bind; cycle 1.
  { apply (fillna_ok _ _ (Frame (nrows s) ∅)).
    rewrite lookup_app_r by lia. by rewrite Nat.sub_diag. }
  cbn [nrows cols]. rewrite fmap_empty.
  erewrite run_bind; cycle 1.
  { apply (DataFrame_ok _ _ s). rewrite !lookup_app_l; [done | lia |].
    rewrite length_app; simpl; lia. }
  rewrite <- !app_assoc. cbn [app].
  rewrite !length_app. cbn [length].
  replace (length h + 1 + 1) with lp by (unfold lp; lia).
  fold n. set (H0 := h ++ _).
  assert (L0 : lp < length H0)
    by (unfold H0, lp; rewrite length_app; simpl; lia).
  assert (Hp0 : H0 !! lp = Some (Frame n ∅)).
  { unfold H0, lp. rewrite lookup_app_r by lia.
    by replace (length h + 2 - length h) with 2 by lia. }
  rewrite (run_bind _ _ _ _ _ (setcol_scalar_ok _ _ _ "cash" cap Hp0)).
  cbn [nrows cols].
  erewrite run_bind; cycle 1.
  { apply setcol_scalar_ok. by apply upd_same. }
  cbn [nrows cols]. rewrite list_insert_insert_eq.
  erewrite run_bind; cycle 1.
  { apply setcol_scalar_ok. by apply upd_same. }
  cbn [nrows cols]. rewrite list_insert_insert_eq.
  change (<["total":=_]> _) with (book (opening n cap)).
  erewrite run_bind; cycle 1.
  { apply (len_ok _ _ s). rewrite upd_other by (unfold lp; lia).
    unfold H0. by rewrite lookup_app_l. }
  fold n. unfold H0, lp. rewrite insert_app_r. done.
Qed.

Lemma has_col_lookup h l c xs :
  has_col h l c xs -> l < length h.
Proof. intros (f & E & _). by eapply lookup_lt_Some. Qed.

(* [execute_orders] fills the portfolio by the turns of its loop *)
Lemma execute_orders_run h ld ls cap close ps :
  has_col h ld "Close" close -> has_col h ls "positions" ps ->
  length ps <= length close \/ length ps <= 1 ->
  let n := length ps in
  execute_orders ld ls cap h =
  inr (length h + 2,
       h ++ [Frame n ∅; Frame n ∅; Frame n (book (turns close ps cap (n - 1)))]).
Proof.
  intros (d & Hd & Hc & Ld) (s & Hs & Hps & Ls) Hlen n.
  assert (Hld : ld < length h) by (by eapply lookup_lt_Some).
  assert (Hls : ls < length h) by (by eapply lookup_lt_Some).
  rewrite (execute_orders_setup h ld ls s cap Hs).
  rewrite <- Ls. fold n.
  set (lp := length h + 2). set (H0 := h ++ _).
  assert (Hp0 : H0 !! lp = Some (Frame n (book (opening n cap)))).
  { unfold H0, lp. rewrite lookup_app_r by lia.
    by replace (length h + 2 - length h) with 2 by lia. }
  unfold for_range.
  erewrite run_bind; cycle 1.
  { apply (for_range_ok ld ls lp d s close ps n); try done.
    - unfold H0. by rewrite lookup_app_l.
    - unfold H0. by rewrite lookup_app_l.
    - unfold lp; lia.
    - unfold lp; lia.
    - intros i Hi. unfold n in *. lia.
    - simpl. by rewrite length_replicate.
    - simpl. by rewrite length_replicate. }
  unfold ret, H0, lp. rewrite insert_app_r. done.
Qed.

(** ** The loop, turn by turn *)

Section turns.
Context (close ps : list float) (cap : float).
Abbreviation n := (length ps).
Abbreviation after := (turns close ps cap).

Lemma turns_S k : after (S k) = turn close ps (after k) k.
Proof. unfold turns. by rewrite seq_S, foldl_app. Qed.

Lemma turns_lengths k :
  length (cash (after k)) = n /\ length (holdings (after k)) = n /\
  length (total (after k)) = n.
Proof.
  induction k as [| k (I1 & I2 & I3)].
  - unfold turns; simpl. by rewrite !length_replicate.
  - rewrite turns_S.
    destruct (turn_lengths close ps (after k) k) as (L1 & L2 & L3). lia.
Qed.

(* a turn writes row [S i] only *)
Lemma turn_other a i j :
  j <> S i ->
  cash (turn close ps a i) !! j = cash a !! j /\
  holdings (turn close ps a i) !! j = holdings a !! j /\
  total (turn close ps a i) !! j = total a !! j.
Proof.
  intros Hj. unfold turn.
  destruct (feqb _ (Fin 1)); [| destruct (feqb _ (Fin (-1)))]; simpl;
    rewrite ?list_lookup_insert_ne by done; done.
Qed.

(* rows the loop has not reached hold what the columns were made with *)
Lemma turns_ahead k j :
  k < j ->
  cash (after k) !! j = replicate n cap !! j /\
  holdings (after k) !! j = replicate n (Fin 0) !! j /\
  total (after k) !! j = replicate n cap !! j.
Proof.
  induction k as [| k IH]; intros Hj.
  - done.
  - rewrite turns_S.
    destruct (turn_other (after k) k j) as (E1 & E2 & E3); [lia |].
    destruct IH as (I1 & I2 & I3); [lia |]. by rewrite E1, E2, E3.
Qed.

(* rows the loop has passed are never written again *)
Lemma turns_behind k m j :
  j <= k ->
  cash (after (k + m)) !! j = cash (after k) !! j /\
  holdings (after (k + m)) !! j = holdings (after k) !! j /\
  total (after (k + m)) !! j = total (after k) !! j.
Proof.
  intros Hj. induction m as [| m (I1 & I2 & I3)].
  - by rewrite Nat.add_0_r.
  - rewrite Nat.add_succ_r, turns_S.
    destruct (turn_other (after (k + m)) (k + m) j) as (E1 & E2 & E3); [lia |].
    by rewrite E1, E2, E3.
Qed.

Lemma turns_first k :
  0 < n ->
  cash (after k) !! 0 = Some cap /\ holdings (after k) !! 0 = Some (Fin 0) /\
  total (after k) !! 0 = Some cap.
Proof.
  intros Hn. destruct (turns_behind 0 k 0) as (E1 & E2 & E3); [lia |].
  simpl in *. rewrite E1, E2, E3. unfold turns; simpl.
  by rewrite !lookup_replicate_2.
Qed.

(* row [S i] of the outcome, from row [i] and the trigger read at [i] *)
Lemma turns_row k i p x c hl :
  S i <= k -> S i < n ->
  ps !! i = Some p -> close !! i = Some x ->
  cash (after k) !! i = Some c -> holdings (after k) !! i = Some hl ->
  let c' := if feqb p (Fin 1) then Fin 0
            else if feqb p (Fin (-1)) then fmul hl x else cap in
  let hl' := if feqb p (Fin 1) then fdiv c x else Fin 0 in
  cash (after k) !! S i = Some c' /\
  holdings (after k) !! S i = Some hl' /\
  total (after k) !! S i = Some (fadd c' (fmul hl' x)).
Proof.
  intros Hk Hn Ep Ex Ec Eh c' hl'.
  replace k with (S i + (k - S i)) in * by lia.
  destruct (turns_behind (S i) (k - S i) (S i)) as (E1 & E2 & E3); [lia |].
  destruct (turns_behind (S i) (k - S i) i) as (F1 & F2 & _); [lia |].
  rewrite E1, E2, E3. rewrite F1 in Ec. rewrite F2 in Eh.
  clear E1 E2 E3 F1 F2.
  destruct (turn_other (after i) i i) as (G1 & G2 & _); [lia |].
  rewrite turns_S in Ec, Eh. rewrite G1 in Ec. rewrite G2 in Eh.
  destruct (turns_ahead i (S i)) as (A1 & A2 & _); [lia |].
  rewrite lookup_replicate_2 in A1, A2 by done.
  destruct (turns_lengths i) as (L1 & L2 & L3).
  rewrite turns_S. unfold turn.
  rewrite (list_lookup_total_correct _ _ _ Ep), (list_lookup_total_correct _ _ _ Ex).
  rewrite (list_lookup_total_correct _ _ _ Ec), (list_lookup_total_correct _ _ _ Eh).
  subst c' hl'.
  destruct (feqb p (Fin 1)); [| destruct (feqb p (Fin (-1)))]; simpl.
  - rewrite !list_lookup_total_insert_eq by lia.
    rewrite !list_lookup_insert_eq by lia. done.
  - rewrite !list_lookup_total_insert_eq by lia.
    rewrite !list_lookup_insert_eq by lia. done.
  - rewrite (list_lookup_total_correct _ _ _ A1), (list_lookup_total_correct _ _ _ A2).
    rewrite list_lookup_insert_eq by lia. done.
Qed.

End turns.

(* the turns read the triggers and closes below their bound only *)
Lemma turns_ext close ps ps' cap k :
  length ps = length ps' ->
  (forall i, i < k -> ps !! i = ps' !! i) ->
  turns close ps cap k = turns close ps' cap k.
Proof.
  intros Hl. induction k as [| k IH]; intros Hk.
  - unfold turns; simpl. by rewrite Hl.
  - rewrite !turns_S, IH by (intros; apply Hk; lia).
    unfold turn. rewrite !list_lookup_total_alt, (Hk k) by lia. done.
Qed.

Lemma read_portfolio_ok H lp n a :
  H !! lp = Some (Frame n (book a)) -> read_portfolio lp H = inr (a, H).
Proof.
  intros Hp. unfold read_portfolio.
  rewrite (run_bind _ _ _ _ _ (getcol_ok _ _ _ _ _ Hp (book_cash a))).
  rewrite (run_bind _ _ _ _ _ (getcol_ok _ _ _ _ _ Hp (book_holdings a))).
  rewrite (run_bind _ _ _ _ _ (getcol_ok _ _ _ _ _ Hp (book_total a))).
  by destruct a.
Qed.

Lemma trajectory_run h ld ls cap close ps :
  has_col h ld "Close" close -> has_col h ls "positions" ps ->
  length ps <= length close \/ length ps <= 1 ->
  value (trajectory ld ls cap h) = inr (turns close ps cap (length ps - 1)).
Proof.
  intros Hc Hp Hl. unfold trajectory.
  rewrite (run_bind _ _ _ _ _ (execute_orders_run h ld ls cap close ps Hc Hp Hl)).
  erewrite (read_portfolio_ok _ _ (length ps)); [done |].
  rewrite lookup_app_r by lia.
  by replace (length h + 2 - length h) with 2 by lia.
Qed.

Lemma report_run h ld ls cap close ps :
  has_col h ld "Close" close -> has_col h ls "positions" ps ->
  length ps <= length close \/ length ps <= 1 ->
  value (report ld ls cap h) =
  match last (total (turns close ps cap (length ps - 1))) with
  | Some x => inr x
  | None => inl IndexError
  end.
Proof.
  intros Hc Hp Hl. unfold report.
  rewrite (run_bind _ _ _ _ _ (execute_orders_run h ld ls cap close ps Hc Hp Hl)).
  unfold final_total.
  erewrite run_bind; cycle 1.
  { apply (getcol_ok _ _ (Frame (length ps) (book (turns close ps cap (length ps - 1)))));
      [| apply book_total].
    rewrite lookup_app_r by lia.
    by replace (length h + 2 - length h) with 2 by lia. }
  by destruct (last _).
Qed.

Lemma market_close close ps : has_col (market close ps) 0 "Close" close.
Proof. by eexists. Qed.
Lemma market_positions close ps : has_col (market close ps) 1 "positions" ps.
Proof. by eexists. Qed.

(** ** Order on the model numbers *)

Lemma fle_0_Fin q : fle (Fin 0) (Fin q) = true <-> (0 <= q)%Q.
Proof.
  unfold fle, fcmp; simpl. rewrite Qle_alt.
  destruct (0 ?= q)%Q; split; try done; congruence.
Qed.

Lemma Qeq_bool_pos q : (0 < q)%Q -> Qeq_bool q 0 = false.
Proof.
  intros Hq. destruct (Qeq_bool q 0) eqn:E; [| done].
  apply Qeq_bool_eq in E. rewrite E in Hq. by apply Qlt_irrefl in Hq.
Qed.

Lemma signbit_nonneg q : (0 <= q)%Q -> (Qnum q <? 0)%Z = false.
Proof.
  intros Hq. apply Z.ltb_ge. unfold Qle in Hq; simpl in Hq. lia.
Qed.

Lemma fdiv_nonneg c q :
  fle (Fin 0) c = true -> (0 < q)%Q -> fle (Fin 0) (fdiv c (Fin q)) = true.
Proof.
  intros Hc Hq. destruct c as [q0 | | | |]; try done.
  - apply fle_0_Fin in Hc.
    unfold fdiv; simpl. rewrite (Qeq_bool_pos q Hq).
    rewrite !signbit_nonneg by (done || by apply Qlt_le_weak).
    destruct (Qeq_bool q0 0); [done |].
    apply fle_0_Fin. rewrite Qred_correct.
    apply Qle_shift_div_l; [done |]. by rewrite Qmult_0_l.
  - unfold fdiv; simpl. rewrite (Qeq_bool_pos q Hq).
    by rewrite signbit_nonneg by by apply Qlt_le_weak.
  - unfold fdiv; simpl. by rewrite signbit_nonneg by by apply Qlt_le_weak.
Qed.

Lemma fmul_nonneg c q :
  fle (Fin 0) c = true -> (0 < q)%Q -> fle (Fin 0) (fmul c (Fin q)) = true.
Proof.
  intros Hc Hq. destruct c as [q0 | | | |]; try done.
  - apply fle_0_Fin in Hc.
    unfold fmul; simpl. rewrite (Qeq_bool_pos q Hq).
    rewrite !signbit_nonneg by (done || by apply Qlt_le_weak).
    rewrite orb_false_r. destruct (Qeq_bool q0 0); [done |].
    apply fle_0_Fin. rewrite Qred_correct.
    apply Qmult_le_0_compat; [done | by apply Qlt_le_weak].
  - unfold fmul; simpl.
    by rewrite signbit_nonneg by by apply Qlt_le_weak.
  - unfold fmul; simpl. rewrite (Qeq_bool_pos q Hq).
    by rewrite signbit_nonneg by by apply Qlt_le_weak.
Qed.

(** ** The portfolio simulator *)

(** C6.  Every transition values the destination row at the trigger step's
    close: [total[i+1] = cash[i+1] + holdings[i+1] * close[i]]. *)
Theorem C6_total_at_trigger_close h ld ls cap close ps :
  has_col h ld "Close" close -> has_col h ls "positions" ps ->
  length ps <= length close ->
  exists a,
    value (trajectory ld ls cap h) = inr a /\
    forall i x c hl,
      S i < length ps -> close !! i = Some x ->
      cash a !! S i = Some c -> holdings a !! S i = Some hl ->
      total a !! S i = Some (fadd c (fmul hl x)).
Proof.
  intros Hc Hp Hl.
  eexists; split;
    [exact (trajectory_run h ld ls cap close ps Hc Hp (or_introl Hl)) |].
  intros i x c hl Hi Ex Ec Eh.
  destruct (turns_lengths close ps cap (length ps - 1)) as (L1 & L2 & _).
  destruct (lookup_lt_is_Some_2 ps i) as [p Ep]; [lia |].
  destruct (lookup_lt_is_Some_2 (cash (turns close ps cap (length ps - 1))) i)
    as [c0 Ec0]; [lia |].
  destruct (lookup_lt_is_Some_2 (holdings (turns close ps cap (length ps - 1))) i)
    as [h0 Eh0]; [lia |].
  destruct (turns_row close ps cap (length ps - 1) i p x c0 h0)
    as (R1 & R2 & R3); try done; [lia |].
  rewrite R1 in Ec. rewrite R2 in Eh. rewrite R3. congruence.
Qed.

Lemma C6_total_at_trigger_close_witness :
  let close := [Fin 10; Fin 20; Fin 30] in
  let ps := [NaN; Fin 1; Fin 0] in
  has_col (market close ps) 0 "Close" close /\
  has_col (market close ps) 1 "positions" ps /\
  length ps <= length close /\
  exists a,
    value (trajectory 0 1 (Fin 100) (market close ps)) = inr a /\
    forall i x c hl,
      S i < length ps -> close !! i = Some x ->
      cash a !! S i = Some c -> holdings a !! S i = Some hl ->
      total a !! S i = Some (fadd c (fmul hl x)).
Proof.
  intros close ps.
  assert (Hc : has_col (market close ps) 0 "Close" close)
    by (eexists; repeat split; reflexivity).
  assert (Hp : has_col (market close ps) 1 "positions" ps)
    by (eexists; repeat split; reflexivity).
  assert (Hl : length ps <= length close) by (simpl; lia).
  repeat split; try assumption.
  exact (C6_total_at_trigger_close _ 0 1 (Fin 100) close ps Hc Hp Hl).
Defined.

(** C10.  With a non-negative initial capital and strictly positive closes,
    neither cash nor holdings is negative at any step of the trajectory. *)
Theorem C10_cash_and_holdings_nonnegative h ld ls cap close ps :
  has_col h ld "Close" close -> has_col h ls "positions" ps ->
  length ps <= length close ->
  fle (Fin 0) cap = true ->
  (forall i x, close !! i = Some x -> positive_price x) ->
  exists a,
    value (trajectory ld ls cap h) = inr a /\
    forall j,
      (forall c, cash a !! j = Some c -> fle (Fin 0) c = true) /\
      (forall hl, holdings a !! j = Some hl -> fle (Fin 0) hl = true).
Proof.
  intros Hc Hp Hl Hcap Hpos.
  eexists; split;
    [exact (trajectory_run h ld ls cap close ps Hc Hp (or_introl Hl)) |].
  set (a := turns close ps cap (length ps - 1)).
  destruct (turns_lengths close ps cap (length ps - 1)) as (L1 & L2 & _).
  fold a in L1, L2.
  induction j as [| i IH].
  - destruct (decide (0 < length ps)) as [Hn | Hn].
    + destruct (turns_first close ps cap (length ps - 1) Hn) as (F1 & F2 & _).
      fold a in F1, F2. split; intros y Ey.
      * rewrite F1 in Ey. by simplify_eq.
      * rewrite F2 in Ey. by simplify_eq.
    + split; intros y Ey; apply lookup_lt_Some in Ey; lia.
  - destruct (decide (S i < length ps)) as [Hn | Hn];
      [| split; intros y Ey; apply lookup_lt_Some in Ey; lia].
    destruct (lookup_lt_is_Some_2 ps i) as [p Ep]; [lia |].
    destruct (lookup_lt_is_Some_2 close i) as [x Ex]; [lia |].
    destruct (lookup_lt_is_Some_2 (cash a) i) as [c0 Ec0]; [lia |].
    destruct (lookup_lt_is_Some_2 (holdings a) i) as [h0 Eh0]; [lia |].
    destruct (turns_row close ps cap (length ps - 1) i p x c0 h0)
      as (R1 & R2 & _); try done; [lia |].
    fold a in R1, R2.
    destruct IH as [IHc IHh].
    specialize (IHc _ Ec0). specialize (IHh _ Eh0).
    destruct (Hpos i x Ex) as (q & -> & Hq).
    split; intros y Ey.
    + rewrite R1 in Ey. simplify_eq.
      destruct (feqb p (Fin 1)); [done |].
      destruct (feqb p (Fin (-1))); [by apply fmul_nonneg | done].
    + rewrite R2 in Ey. simplify_eq.
      destruct (feqb p (Fin 1)); [by apply fdiv_nonneg | done].
Qed.

Lemma C10_cash_and_holdings_nonnegative_witness :
  let close := [Fin 10; Fin 20; Fin 30] in
  let ps := [NaN; Fin 1; Fin (-1)] in
  has_col (market close ps) 0 "Close" close /\
  has_col (market close ps) 1 "positions" ps /\
  length ps <= length close /\
  fle (Fin 0) (Fin 100) = true /\
  (forall i x, close !! i = Some x -> positive_price x) /\
  exists a,
    value (trajectory 0 1 (Fin 100) (market close ps)) = inr a /\
    forall j,
      (forall c, cash a !! j = Some c -> fle (Fin 0) c = true) /\
      (forall hl, holdings a !! j = Some hl -> fle (Fin 0) hl = true).
Proof.
  intros close ps.
  assert (Hc : has_col (market close ps) 0 "Close" close)
    by (eexists; repeat split; reflexivity).
  assert (Hp : has_col (market close ps) 1 "positions" ps)
    by (eexists; repeat split; reflexivity).
  assert (Hl : length ps <= length close) by (simpl; lia).
  assert (Hcap : fle (Fin 0) (Fin 100) = true) by reflexivity.
  assert (Hpos : forall i x, close !! i = Some x -> positive_price x).
  { intros [| [| [| i]]] x Ex; simpl in Ex; inversion Ex;
      eexists; (split; [reflexivity | reflexivity]). }
  repeat split; try assumption.
  exact (C10_cash_and_holdings_nonnegative _ 0 1 (Fin 100) close ps
           Hc Hp Hl Hcap Hpos).
Defined.

(** C9.  The loop stops after trigger index N-2: two runs whose position
    changes differ at the final index only hand back the same trajectory
    and report the same final total. *)
Theorem C9_final_position_change_unused h h' ld ls ld' ls' cap close ps ps' :
  has_col h ld "Close" close -> has_col h ls "positions" ps ->
  has_col h' ld' "Close" close -> has_col h' ls' "positions" ps' ->
  1 <= length ps -> length ps = length ps' -> length ps <= length close ->
  (forall i, S i < length ps -> ps !! i = ps' !! i) ->
  exists a x,
    value (trajectory ld ls cap h) = inr a /\
    value (trajectory ld' ls' cap h') = inr a /\
    value (report ld ls cap h) = inr x /\
    value (report ld' ls' cap h') = inr x.
Proof.
  intros Hc Hp Hc' Hp' Hn Hl Hle Hag.
  assert (E : turns close ps cap (length ps - 1) =
              turns close ps' cap (length ps' - 1)).
  { rewrite <- Hl. apply turns_ext; [done |]. intros i Hi. apply Hag. lia. }
  destruct (turns_lengths close ps cap (length ps - 1)) as (_ & _ & L3).
  destruct (lookup_lt_is_Some_2 (total (turns close ps cap (length ps - 1)))
              (pred (length ps))) as [x Ex]; [lia |].
  exists (turns close ps cap (length ps - 1)), x.
  rewrite (trajectory_run h ld ls cap close ps) by (done || by left).
  rewrite (trajectory_run h' ld' ls' cap close ps') by (done || left; lia).
  rewrite (report_run h ld ls cap close ps) by (done || by left).
  rewrite (report_run h' ld' ls' cap close ps') by (done || left; lia).
  rewrite <- E, last_lookup, L3, Ex. done.
Qed.

Lemma C9_final_position_change_unused_witness :
  let close := [Fin 10; Fin 20; Fin 30] in
  let ps := [NaN; Fin 1; Fin (-1)] in
  let ps' := [NaN; Fin 1; Fin 1] in
  has_col (market close ps) 0 "Close" close /\
  has_col (market close ps) 1 "positions" ps /\
  has_col (market close ps') 0 "Close" close /\
  has_col (market close ps') 1 "positions" ps' /\
  1 <= length ps /\ length ps = length ps' /\ length ps <= length close /\
  (forall i, S i < length ps -> ps !! i = ps' !! i) /\
  exists a x,
    value (trajectory 0 1 (Fin 100) (market close ps)) = inr a /\
    value (trajectory 0 1 (Fin 100) (market close ps')) = inr a /\
    value (report 0 1 (Fin 100) (market close ps)) = inr x /\
    value (report 0 1 (Fin 100) (market close ps')) = inr x.
Proof.
  intros close ps ps'.
  assert (Hc : has_col (market close ps) 0 "Close" close)
    by (eexists; repeat split; reflexivity).
  assert (Hp : has_col (market close ps) 1 "positions" ps)
    by (eexists; repeat split; reflexivity).
  assert (Hc' : has_col (market close ps') 0 "Close" close)
    by (eexists; repeat split; reflexivity).
  assert (Hp' : has_col (market close ps') 1 "positions" ps')
    by (eexists; repeat split; reflexivity).
  assert (Hn : 1 <= length ps) by (simpl; lia).
  assert (Hl : length ps = length ps') by reflexivity.
  assert (Hle : length ps <= length close) by (simpl; lia).
  assert (Hag : forall i, S i < length ps -> ps !! i = ps' !! i).
  { intros [| [| i]] Hi; [reflexivity | reflexivity | simpl in Hi; lia]. }
  repeat split; try assumption.
  exact (C9_final_position_change_unused _ _ 0 1 0 1 (Fin 100) close ps ps'
           Hc Hp Hc' Hp' Hn Hl Hle Hag).
Defined.

(** C1, as the code has it.  The triggers test the position change alone,
    not the account: +1 buys with the cash of step i, -1 sells the holdings
    of step i.  A step whose position change is neither carries cash and
    holdings forward when the account at step i is the opening one:
    cash[i] = initial_capital and holdings[i] = 0. *)
Theorem C1_transition_without_guards h ld ls cap close ps :
  has_col h ld "Close" close -> has_col h ls "positions" ps ->
  length ps <= length close ->
  exists a,
    value (trajectory ld ls cap h) = inr a /\
    forall i p x c hl,
      S i < length ps -> ps !! i = Some p -> close !! i = Some x ->
      cash a !! i = Some c -> holdings a !! i = Some hl ->
      (feqb p (Fin 1) = true ->
       cash a !! S i = Some (Fin 0) /\ holdings a !! S i = Some (fdiv c x)) /\
      (feqb p (Fin 1) = false -> feqb p (Fin (-1)) = true ->
       cash a !! S i = Some (fmul hl x) /\ holdings a !! S i = Some (Fin 0)) /\
      (feqb p (Fin 1) = false -> feqb p (Fin (-1)) = false ->
       c = cap -> hl = Fin 0 ->
       cash a !! S i = Some c /\ holdings a !! S i = Some hl).
Proof.
  intros Hc Hp Hl.
  eexists; split;
    [exact (trajectory_run h ld ls cap close ps Hc Hp (or_introl Hl)) |].
  intros i p x c hl Hi Ep Ex Ec Eh.
  destruct (turns_row close ps cap (length ps - 1) i p x c hl)
    as (R1 & R2 & _); try done; [lia |].
  rewrite R1, R2. split; [| split].
  - by intros ->.
  - by intros -> ->.
  - by intros -> -> -> ->.
Qed.

Lemma C1_transition_without_guards_witness :
  let close := [Fin 10; Fin 20; Fin 30] in
  let ps := [NaN; Fin 0; Fin 1] in
  has_col (market close ps) 0 "Close" close /\
  has_col (market close ps) 1 "positions" ps /\
  length ps <= length close /\
  exists a,
    value (trajectory 0 1 (Fin 100) (market close ps)) = inr a /\
    forall i p x c hl,
      S i < length ps -> ps !! i = Some p -> close !! i = Some x ->
      cash a !! i = Some c -> holdings a !! i = Some hl ->
      (feqb p (Fin 1) = true ->
       cash a !! S i = Some (Fin 0) /\ holdings a !! S i = Some (fdiv c x)) /\
      (feqb p (Fin 1) = false -> feqb p (Fin (-1)) = true ->
       cash a !! S i = Some (fmul hl x) /\ holdings a !! S i = Some (Fin 0)) /\
      (feqb p (Fin 1) = false -> feqb p (Fin (-1)) = false ->
       c = Fin 100 -> hl = Fin 0 ->
       cash a !! S i = Some c /\ holdings a !! S i = Some hl).
Proof.
  intros close ps.
  assert (Hc : has_col (market close ps) 0 "Close" close)
    by (eexists; repeat split; reflexivity).
  assert (Hp : has_col (market close ps) 1 "positions" ps)
    by (eexists; repeat split; reflexivity).
  assert (Hl : length ps <= length close) by (simpl; lia).
  repeat split; try assumption.
  exact (C1_transition_without_guards _ 0 1 (Fin 100) close ps Hc Hp Hl).
Defined.

(** C1 as stated fails: at step 2 the position change is +1 while the
    account holds 10 shares, which is no buy trigger (the account is in
    position) and no sell trigger, yet the holdings of step 3 are not those
    of step 2. *)
Lemma C1_counterexample :
  let close := [Fin 10; Fin 10; Fin 10; Fin 10] in
  let ps := [NaN; Fin 1; Fin 1; Fin 0] in
  exists a,
    value (trajectory 0 1 (Fin 100) (market close ps)) = inr a /\
    holdings a !! 2 = Some (Fin 10) /\ holdings a !! 3 = Some (Fin 0) /\
    ~ carries_forward ps a.
Proof.
  intros close ps. eexists. split; [vm_compute; reflexivity |].
  split; [reflexivity |]. split; [reflexivity |].
  intros C.
  destruct (C 2 (Fin 1) (Fin 0) (Fin 10)) as [_ E];
    try reflexivity; [simpl; lia |].
  discriminate E.
Qed.

(* the missing carry-forward at work: after a buy at step 1, the step-2
   position change 0 leaves row 3 as it was made, and the shares are gone *)
Example reset_after_buy :
  let close := [Fin 10; Fin 10; Fin 10; Fin 10] in
  let ps := [NaN; Fin 1; Fin 0; Fin 0] in
  value (trajectory 0 1 (Fin 100) (market close ps)) =
  inr (Account [Fin 100; Fin 100; Fin 0; Fin 100]
               [Fin 0; Fin 0; Fin 10; Fin 0]
               [Fin 100; Fin 100; Fin 100; Fin 100]).
Proof. vm_compute. reflexivity. Qed.

(** ** Running past the end of the price table *)

Lemma for_range_from_split (body : nat -> M unit) k m :
  forall start H,
  for_range_from start (k + m) body H =
  bind (for_range_from start k body)
       (fun _ => for_range_from (start + k) m body) H.
Proof.
  induction k as [| k IH]; intros start H; simpl.
  - unfold bind, ret. by rewrite Nat.add_0_r.
  - unfold bind. destruct (body start H) as [e | [[] H1]]; [done |].
    rewrite IH. unfold bind. by rewrite Nat.add_succ_r.
Qed.

(* a turn whose destination row the price table does not have *)
Lemma order_step_past_end H ld ls lp d s close ps n a i :
  H !! ld = Some d -> cols d !! "Close" = Some close ->
  length close = nrows d ->
  H !! ls = Some s -> cols s !! "positions" = Some ps ->
  H !! lp = Some (Frame n (book a)) -> lp <> ld ->
  i < length ps -> nrows d <= S i ->
  S i < length (cash a) -> S i < length (holdings a) ->
  order_step ld ls lp i H = inl IndexError.
Proof.
  intros Hd Hc Lc Hs Hps Hp Hnd Hi Hid Hca Hho.
  destruct (lookup_lt_is_Some_2 ps i Hi) as [p Ep].
  destruct (lookup_lt_is_Some_2 (cash a) i) as [ci Eci]; [lia |].
  destruct (lookup_lt_is_Some_2 (holdings a) i) as [hi Ehi]; [lia |].
  destruct (lookup_lt_is_Some_2 (cash a) (S i) Hca) as [c1 Ec1].
  destruct (lookup_lt_is_Some_2 (holdings a) (S i) Hho) as [h1 Eh1].
  assert (Hclose : iloc ld "Close" i H = inl IndexError \/
                   exists x, iloc ld "Close" i H = inr (x, H)).
  { destruct (close !! i) as [x |] eqn:Ex.
    - right. exists x. by eapply iloc_ok.
    - left. eapply iloc_past_end; eauto. by apply lookup_ge_None. }
  assert (Hidx : index_at ld (i + 1) H = inl IndexError).
  { rewrite Nat.add_1_r. by eapply index_at_past_end. }
  unfold order_step.
  rewrite (run_bind _ _ _ _ _ (iloc_ok _ _ _ _ _ _ _ Hs Hps Ep)).
  destruct (feqb p (Fin 1)); [| destruct (feqb p (Fin (-1)))].
  - apply run_bind_raise.
    rewrite (run_bind _ _ _ _ _ (iloc_ok _ _ _ _ _ _ _ Hp (book_cash a) Eci)).
    destruct Hclose as [E | [x E]].
    + by apply run_bind_raise.
    + rewrite (run_bind _ _ _ _ _ E). by apply run_bind_raise.
  - apply run_bind_raise.
    rewrite (run_bind _ _ _ _ _ (iloc_ok _ _ _ _ _ _ _ Hp (book_holdings a) Ehi)).
    destruct Hclose as [E | [x E]].
    + by apply run_bind_raise.
    + rewrite (run_bind _ _ _ _ _ E). by apply run_bind_raise.
  - rewrite (run_bind _ _ _ _ _ (eq_refl : ret tt H = inr (tt, H))).
    rewrite Nat.add_1_r.
    rewrite (run_bind _ _ _ _ _ (iloc_ok _ _ _ _ _ _ _ Hp (book_cash a) Ec1)).
    rewrite (run_bind _ _ _ _ _ (iloc_ok _ _ _ _ _ _ _ Hp (book_holdings a) Eh1)).
    rewrite Nat.add_1_r in Hidx.
    destruct Hclose as [E | [x E]].
    + by apply run_bind_raise.
    + rewrite (run_bind _ _ _ _ _ E). by apply run_bind_raise.
Qed.

Lemma execute_orders_past_end h ld ls cap close ps :
  has_col h ld "Close" close -> has_col h ls "positions" ps ->
  length close < length ps -> 2 <= length ps ->
  execute_orders ld ls cap h = inl IndexError.
Proof.
  intros (d & Hd & Hc & Ld) (s & Hs & Hps & Ls) Hlen Hn.
  set (n := length ps).
  assert (Hld : ld < length h) by (by eapply lookup_lt_Some).
  assert (Hls : ls < length h) by (by eapply lookup_lt_Some).
  rewrite (execute_orders_setup h ld ls s cap Hs).
  rewrite <- Ls. fold n.
  set (lp := length h + 2). set (H0 := h ++ _).
  assert (L0 : lp < length H0)
    by (unfold H0, lp; rewrite length_app; simpl; lia).
  assert (Hp0 : H0 !! lp = Some (Frame n (book (opening n cap)))).
  { unfold H0, lp. rewrite lookup_app_r by lia.
    by replace (length h + 2 - length h) with 2 by lia. }
  assert (Hd0 : H0 !! ld = Some d) by (unfold H0; by rewrite lookup_app_l).
  assert (Hs0 : H0 !! ls = Some s) by (unfold H0; by rewrite lookup_app_l).
  apply run_bind_raise. unfold for_range.
  (* the turns before the first one that runs off the price table *)
  set (k := length close - 1).
  replace (n - 1) with (k + S (n - 2 - k)) by (unfold k, n; lia).
  rewrite for_range_from_split.
  erewrite run_bind; cycle 1.
  { apply (for_range_ok ld ls lp d s close ps n); try done.
    - unfold lp; lia.
    - unfold lp; lia.
    - intros i Hi. unfold k, n in *. lia.
    - simpl. by rewrite length_replicate.
    - simpl. by rewrite length_replicate. }
  cbn [for_range_from].
  apply run_bind_raise.
  destruct (turns_lengths close ps cap k) as (L1 & L2 & _).
  change (foldl (turn close ps) (opening n cap) (seq 0 k))
    with (turns close ps cap k).
  apply (order_step_past_end _ ld ls lp d s close ps n
           (turns close ps cap k)); try done.
  - rewrite upd_other; [done | unfold lp; lia].
  - rewrite upd_other; [done | unfold lp; lia].
  - by apply upd_same.
  - unfold lp; lia.
  - unfold k, n in *; lia.
  - unfold k; lia.
  - rewrite L1. unfold k, n in *. lia.
  - rewrite L2. unfold k, n in *. lia.
Qed.

(** C5, as the code has it.  [execute_orders] validates nothing: whatever
    the initial capital, it hands back a trajectory with one row per signal
    row when the price table has at least as many rows as the signal table
    (or the signal table has at most one row); it fails, with the IndexError
    of the read past the end, when the price table is shorter than a signal
    table of two rows or more. *)
Theorem C5_no_parameter_validation h ld ls cap close ps :
  has_col h ld "Close" close -> has_col h ls "positions" ps ->
  (length ps <= length close \/ length ps <= 1 ->
   exists a,
     value (trajectory ld ls cap h) = inr a /\
     length (cash a) = length ps /\ length (holdings a) = length ps /\
     length (total a) = length ps) /\
  (length close < length ps -> 2 <= length ps ->
   value (trajectory ld ls cap h) = inl IndexError).
Proof.
  intros Hc Hp. split.
  - intros Hl. eexists; split;
      [exact (trajectory_run h ld ls cap close ps Hc Hp Hl) |].
    apply turns_lengths.
  - intros Hl Hn. unfold trajectory.
    by rewrite (run_bind_raise _ _ _ _
                  (execute_orders_past_end h ld ls cap close ps Hc Hp Hl Hn)).
Qed.

Lemma C5_no_parameter_validation_witness :
  let close := [Fin 10; Fin 20] in
  let ps := [NaN; Fin 1; Fin 0] in
  has_col (market close ps) 0 "Close" close /\
  has_col (market close ps) 1 "positions" ps /\
  (length ps <= length close \/ length ps <= 1 ->
   exists a,
     value (trajectory 0 1 (Fin (-5)) (market close ps)) = inr a /\
     length (cash a) = length ps /\ length (holdings a) = length ps /\
     length (total a) = length ps) /\
  (length close < length ps -> 2 <= length ps ->
   value (trajectory 0 1 (Fin (-5)) (market close ps)) = inl IndexError).
Proof.
  intros close ps.
  assert (Hc : has_col (market close ps) 0 "Close" close)
    by (eexists; repeat split; reflexivity).
  assert (Hp : has_col (market close ps) 1 "positions" ps)
    by (eexists; repeat split; reflexivity).
  split; [assumption |]. split; [assumption |].
  exact (C5_no_parameter_validation _ 0 1 (Fin (-5)) close ps Hc Hp).
Defined.

(** C5 as stated fails: a negative initial capital, and a price table longer
    than the signal table, each yield a trajectory. *)
Lemma C5_counterexample :
  (fle (Fin (-5)) (Fin 0) = true /\
   value (trajectory 0 1 (Fin (-5)) (market [Fin 10; Fin 20] [NaN; Fin 1])) =
   inr (Account [Fin (-5); Fin (-5)] [Fin 0; Fin 0] [Fin (-5); Fin (-5)])) /\
  (length [Fin 10; Fin 20; Fin 30] <> length [NaN; Fin 1] /\
   value (trajectory 0 1 (Fin 100)
            (market [Fin 10; Fin 20; Fin 30] [NaN; Fin 1])) =
   inr (Account [Fin 100; Fin 100] [Fin 0; Fin 0] [Fin 100; Fin 100])).
Proof.
  split; (split; [| vm_compute; reflexivity]).
  - reflexivity.
  - simpl. lia.
Qed.

(** ** The signal generator *)

Lemma lookup_map {A B} (f : A -> B) (l : list A) i :
  map f l !! i = f <$> l !! i.
Proof. apply (list_lookup_fmap f l i). Qed.

Lemma mask_assign_lookup mask v xs i :
  pd.mask_assign mask v xs !! i =
  match mask !! i with
  | Some true => (fun _ => v) <$> xs !! i
  | _ => xs !! i
  end.
Proof.
  revert xs i. induction mask as [| b mask IH]; intros [| x xs] [| i]; simpl;
    try done; try (by destruct b); try apply IH.
  by destruct (mask !! i) as [[] |].
Qed.

Lemma mask_assign_length mask v xs :
  length (pd.mask_assign mask v xs) = length xs.
Proof.
  revert xs. induction mask as [| b mask IH]; intros [| x xs]; simpl; auto.
Qed.

Lemma signal_column_length n sma20 sma50 rsi macd macd_signal :
  length (signal_column n sma20 sma50 rsi macd macd_signal) = n.
Proof.
  unfold signal_column. by rewrite !mask_assign_length, length_replicate.
Qed.

(* the column, step by step, is the five rules in their order *)
Lemma signal_column_lookup n sma20 sma50 rsi macd macd_signal i a b r m ms :
  i < n ->
  sma20 !! i = Some a -> sma50 !! i = Some b -> rsi !! i = Some r ->
  macd !! i = Some m -> macd_signal !! i = Some ms ->
  signal_column n sma20 sma50 rsi macd macd_signal !! i =
  Some (spec_rules a b r m ms).
Proof.
  intros Hi Ea Eb Er Em Ems. unfold signal_column, spec_rules.
  rewrite !mask_assign_lookup.
  unfold pd.lt, pd.gt, pd.gt_scalar.
  rewrite !lookup_zip_with, lookup_map, Ea, Eb, Er, Em, Ems; simpl.
  rewrite lookup_replicate_2 by done.
  destruct (flt m ms), (fgt m ms), (fgt r (Fin 70)), (fgt a b); done.
Qed.

Lemma spec_rules_range a b r m ms :
  spec_rules a b r m ms = Fin (-1) \/ spec_rules a b r m ms = Fin 0 \/
  spec_rules a b r m ms = Fin 1.
Proof.
  unfold spec_rules.
  destruct (flt m ms), (fgt m ms), (fgt r (Fin 70)), (fgt a b); auto.
Qed.

Lemma trading_strategy_run h ld sma20 sma50 rsi macd macd_signal d :
  h !! ld = Some d ->
  cols d !! "SMA_20" = Some sma20 -> cols d !! "SMA_50" = Some sma50 ->
  cols d !! "RSI" = Some rsi ->
  cols d !! "MACD" = Some macd -> cols d !! "MACD_signal" = Some macd_signal ->
  let sig := signal_column (nrows d) sma20 sma50 rsi macd macd_signal in
  trading_strategy ld h =
  inr (length h,
       h ++ [Frame (nrows d) (<["positions" := pd.diff sig]> (<["signal" := sig]> ∅))]).
Proof.
  intros Hd E20 E50 Er Em Ems sig.
  assert (Hld : ld < length h) by (by eapply lookup_lt_Some).
  unfold trading_strategy.
  rewrite (run_bind _ _ _ _ _ (DataFrame_ok _ _ _ Hd)).
  set (ls := length h). set (n := nrows d).
  set (H0 := h ++ _).
  assert (L0 : ls < length H0)
    by (unfold H0, ls; rewrite length_app; simpl; lia).
  assert (Hs0 : H0 !! ls = Some (Frame n ∅)).
  { unfold H0, ls. rewrite lookup_app_r by lia. by rewrite Nat.sub_diag. }
  assert (Hne : ls <> ld) by (unfold ls; lia).
  assert (Hd' : forall g, <[ls := g]> H0 !! ld = Some d).
  { intros g. rewrite upd_other by done. unfold H0. by rewrite lookup_app_l. }
  assert (Hs' : forall g, <[ls := g]> H0 !! ls = Some g)
    by (intros g; by apply upd_same).
  rewrite (run_bind _ _ _ _ _ (setcol_scalar_ok _ _ _ "signal" (Fin 0) Hs0)).
  simpl nrows; simpl cols.
  rewrite (run_bind _ _ _ _ _ (getcol_ok _ _ _ _ _ (Hd' _) E20)).
  rewrite (run_bind _ _ _ _ _ (getcol_ok _ _ _ _ _ (Hd' _) E50)).
  rewrite (run_bind _ _ _ _ _
             (loc_mask_assign_ok _ _ _ _ _ _ _ (Hs' _) (lookup_insert_eq _ _ _))).
  simpl nrows; simpl cols. rewrite list_insert_insert_eq, insert_insert_eq.
  rewrite (run_bind _ _ _ _ _ (getcol_ok _ _ _ _ _ (Hd' _) Er)).
  rewrite (run_bind _ _ _ _ _
             (loc_mask_assign_ok _ _ _ _ _ _ _ (Hs' _) (lookup_insert_eq _ _ _))).
  simpl nrows; simpl cols. rewrite list_insert_insert_eq, insert_insert_eq.
  rewrite (run_bind _ _ _ _ _ (getcol_ok _ _ _ _ _ (Hd' _) Em)).
  rewrite (run_bind _ _ _ _ _ (getcol_ok _ _ _ _ _ (Hd' _) Ems)).
  rewrite (run_bind _ _ _ _ _
             (loc_mask_assign_ok _ _ _ _ _ _ _ (Hs' _) (lookup_insert_eq _ _ _))).
  simpl nrows; simpl cols. rewrite list_insert_insert_eq, insert_insert_eq.
  rewrite (run_bind _ _ _ _ _ (getcol_ok _ _ _ _ _ (Hd' _) Em)).
  rewrite (run_bind _ _ _ _ _ (getcol_ok _ _ _ _ _ (Hd' _) Ems)).
  rewrite (run_bind _ _ _ _ _
             (loc_mask_assign_ok _ _ _ _ _ _ _ (Hs' _) (lookup_insert_eq _ _ _))).
  simpl nrows; simpl cols. rewrite list_insert_insert_eq, insert_insert_eq.
  fold (signal_column n sma20 sma50 rsi macd macd_signal). fold sig.
  rewrite (run_bind _ _ _ _ _
             (getcol_ok _ _ _ _ _ (Hs' _) (lookup_insert_eq _ _ _))).
  rewrite (run_bind _ _ _ _ _ (setcol_ok _ _ _ _ _ (Hs' _))).
  simpl nrows; simpl cols. rewrite list_insert_insert_eq.
  unfold ret, H0, ls.
  replace (length h) with (length h + 0) at 2 by lia.
  rewrite insert_app_r. done.
Qed.

Lemma signals_of_run h ld sma20 sma50 rsi macd macd_signal d :
  h !! ld = Some d ->
  cols d !! "SMA_20" = Some sma20 -> cols d !! "SMA_50" = Some sma50 ->
  cols d !! "RSI" = Some rsi ->
  cols d !! "MACD" = Some macd -> cols d !! "MACD_signal" = Some macd_signal ->
  let sig := signal_column (nrows d) sma20 sma50 rsi macd macd_signal in
  value (signals_of ld h) = inr (sig, pd.diff sig).
Proof.
  intros Hd E20 E50 Er Em Ems sig.
  unfold signals_of, generate_signals.
  erewrite run_bind; cycle 1.
  { rewrite (run_bind _ _ _ _ _
               (trading_strategy_run h ld _ _ _ _ _ d Hd E20 E50 Er Em Ems)).
    reflexivity. }
  fold sig.
  set (f := Frame _ _).
  assert (Hs : (h ++ [f]) !! length h = Some f).
  { rewrite lookup_app_r by lia. by rewrite Nat.sub_diag. }
  rewrite (run_bind _ _ _ _ _ (getcol_ok _ _ _ "signal" sig Hs eq_refl)).
  rewrite (run_bind _ _ _ _ _ (getcol_ok _ _ _ "positions" (pd.diff sig) Hs eq_refl)).
  done.
Qed.

Lemma fcmp_opp x y : fcmp y x = CompOpp <$> fcmp x y.
Proof.
  destruct x as [p | | | |], y as [q | | | |]; simpl; try done;
    by rewrite <- Qcompare_antisym.
Qed.

Lemma fgt_not_flt x y : fgt x y = true -> flt x y = false.
Proof.
  unfold fgt, flt. rewrite (fcmp_opp x y).
  by destruct (fcmp x y) as [[] |].
Qed.

Lemma fcmp_defined x y :
  is_nan x = false -> is_nan y = false -> is_Some (fcmp x y).
Proof. destruct x, y; simpl; try done; eauto. Qed.

Lemma flt_or_fgt x y :
  is_nan x = false -> is_nan y = false -> feqb x y = false ->
  fgt x y = true \/ flt x y = true.
Proof.
  intros Hx Hy. unfold fgt, flt, feqb. rewrite (fcmp_opp x y).
  destruct (fcmp_defined x y Hx Hy) as [c ->]. destruct c; simpl; auto.
Qed.

Lemma has_col_same h l c c' xs ys :
  has_col h l c xs -> has_col h l c' ys ->
  exists d, h !! l = Some d /\ cols d !! c = Some xs /\
            cols d !! c' = Some ys /\ length xs = nrows d /\ length ys = nrows d.
Proof.
  intros (d & Hd & Hc & Hl) (d' & Hd' & Hc' & Hl'). simplify_eq. eauto 10.
Qed.

(** C7.  At every step the signal is the outcome of the five rules applied
    in their fixed order, later rules overwriting earlier ones; so the MACD
    comparison decides whenever MACD and MACD_signal differ, and the signal
    is -1, 0 or +1. *)
Theorem C7_rules_in_priority_order h ld sma20 sma50 rsi macd macd_signal :
  has_col h ld "SMA_20" sma20 -> has_col h ld "SMA_50" sma50 ->
  has_col h ld "RSI" rsi ->
  has_col h ld "MACD" macd -> has_col h ld "MACD_signal" macd_signal ->
  exists sig pos,
    value (signals_of ld h) = inr (sig, pos) /\
    forall i a b r m ms,
      sma20 !! i = Some a -> sma50 !! i = Some b -> rsi !! i = Some r ->
      macd !! i = Some m -> macd_signal !! i = Some ms ->
      sig !! i = Some (spec_rules a b r m ms) /\
      (fgt m ms = true -> sig !! i = Some (Fin 1)) /\
      (flt m ms = true -> sig !! i = Some (Fin (-1))) /\
      (is_nan m = false -> is_nan ms = false -> feqb m ms = false ->
       fgt m ms = true \/ flt m ms = true) /\
      (sig !! i = Some (Fin (-1)) \/ sig !! i = Some (Fin 0) \/
       sig !! i = Some (Fin 1)).
Proof.
  intros H20 H50 Hr Hm Hms.
  destruct (has_col_same _ _ _ _ _ _ H20 H50) as (d & Hd & E20 & E50 & L20 & _).
  destruct (has_col_same _ _ _ _ _ _ Hr Hm) as (d1 & Hd1 & Er & Em & _ & _).
  rewrite Hd in Hd1. injection Hd1 as <-.
  destruct Hms as (d2 & Hd2 & Ems & _).
  rewrite Hd in Hd2. injection Hd2 as <-.
  eexists _, _; split;
    [exact (signals_of_run h ld _ _ _ _ _ d Hd E20 E50 Er Em Ems) |].
  intros i a b r m ms Ea Eb Ei Emi Emsi.
  assert (Hi : i < nrows d) by (rewrite <- L20; by eapply lookup_lt_Some).
  rewrite (signal_column_lookup _ _ _ _ _ _ i a b r m ms Hi Ea Eb Ei Emi Emsi).
  split; [done |]. split; [| split; [| split]].
  - intros G. unfold spec_rules. by rewrite (fgt_not_flt _ _ G), G.
  - intros L. unfold spec_rules. by rewrite L.
  - apply flt_or_fgt.
  - destruct (spec_rules_range a b r m ms) as [-> | [-> | ->]]; auto.
Qed.

Lemma C7_rules_in_priority_order_witness :
  let sma20 := [Fin 2; Fin 1] in
  let sma50 := [Fin 1; Fin 2] in
  let rsi := [Fin 80; Fin 50] in
  let macd := [Fin 1; Fin 0] in
  let macd_signal := [Fin 0; Fin 1] in
  let h := indicator_table sma20 sma50 rsi macd macd_signal in
  has_col h 0 "SMA_20" sma20 /\ has_col h 0 "SMA_50" sma50 /\
  has_col h 0 "RSI" rsi /\
  has_col h 0 "MACD" macd /\ has_col h 0 "MACD_signal" macd_signal /\
  exists sig pos,
    value (signals_of 0 h) = inr (sig, pos) /\
    forall i a b r m ms,
      sma20 !! i = Some a -> sma50 !! i = Some b -> rsi !! i = Some r ->
      macd !! i = Some m -> macd_signal !! i = Some ms ->
      sig !! i = Some (spec_rules a b r m ms) /\
      (fgt m ms = true -> sig !! i = Some (Fin 1)) /\
      (flt m ms = true -> sig !! i = Some (Fin (-1))) /\
      (is_nan m = false -> is_nan ms = false -> feqb m ms = false ->
       fgt m ms = true \/ flt m ms = true) /\
      (sig !! i = Some (Fin (-1)) \/ sig !! i = Some (Fin 0) \/
       sig !! i = Some (Fin 1)).
Proof.
  intros sma20 sma50 rsi macd macd_signal h.
  assert (H20 : has_col h 0 "SMA_20" sma20)
    by (eexists; repeat split; reflexivity).
  assert (H50 : has_col h 0 "SMA_50" sma50)
    by (eexists; repeat split; reflexivity).
  assert (Hr : has_col h 0 "RSI" rsi)
    by (eexists; repeat split; reflexivity).
  assert (Hm : has_col h 0 "MACD" macd)
    by (eexists; repeat split; reflexivity).
  assert (Hms : has_col h 0 "MACD_signal" macd_signal)
    by (eexists; repeat split; reflexivity).
  do 5 (split; [assumption |]).
  exact (C7_rules_in_priority_order h 0 sma20 sma50 rsi macd macd_signal
           H20 H50 Hr Hm Hms).
Defined.

(* the fixture of the witness: RSI > 70 is overwritten by MACD > signal *)
Example conflicting_rules :
  value (signals_of 0 (indicator_table [Fin 2; Fin 1] [Fin 1; Fin 2]
                         [Fin 80; Fin 50] [Fin 1; Fin 0] [Fin 0; Fin 1])) =
  inr ([Fin 1; Fin (-1)], [NaN; Fin (-2)]).
Proof. vm_compute. reflexivity. Qed.

(** C2, as the code has it.  A comparison with an undefined (NaN) operand is
    false, so an undefined indicator fires no rule that reads it, while the
    rules on defined operands go on firing: at every step the signal is the
    outcome of the five rules.  It is 0 at every step where each rule has an
    undefined operand (SMA_20 or SMA_50, RSI, and MACD or MACD_signal), in
    particular where all five indicators are undefined. *)
Theorem C2_undefined_operands_fire_no_rule h ld sma20 sma50 rsi macd macd_signal :
  has_col h ld "SMA_20" sma20 -> has_col h ld "SMA_50" sma50 ->
  has_col h ld "RSI" rsi ->
  has_col h ld "MACD" macd -> has_col h ld "MACD_signal" macd_signal ->
  (forall x, fgt NaN x = false /\ fgt x NaN = false /\
             flt NaN x = false /\ flt x NaN = false) /\
  exists sig pos,
    value (signals_of ld h) = inr (sig, pos) /\
    forall i a b r m ms,
      sma20 !! i = Some a -> sma50 !! i = Some b -> rsi !! i = Some r ->
      macd !! i = Some m -> macd_signal !! i = Some ms ->
      sig !! i = Some (spec_rules a b r m ms) /\
      (is_nan a || is_nan b = true -> is_nan r = true ->
       is_nan m || is_nan ms = true ->
       sig !! i = Some (Fin 0)).
Proof.
  intros H20 H50 Hr Hm Hms.
  split; [intros x; by destruct x |].
  destruct (has_col_same _ _ _ _ _ _ H20 H50) as (d & Hd & E20 & E50 & L20 & _).
  destruct (has_col_same _ _ _ _ _ _ Hr Hm) as (d1 & Hd1 & Er & Em & _ & _).
  rewrite Hd in Hd1. injection Hd1 as <-.
  destruct Hms as (d2 & Hd2 & Ems & _).
  rewrite Hd in Hd2. injection Hd2 as <-.
  eexists _, _; split;
    [exact (signals_of_run h ld _ _ _ _ _ d Hd E20 E50 Er Em Ems) |].
  intros i a b r m ms Ea Eb Ei Emi Emsi.
  assert (Hi : i < nrows d) by (rewrite <- L20; by eapply lookup_lt_Some).
  rewrite (signal_column_lookup _ _ _ _ _ _ i a b r m ms Hi Ea Eb Ei Emi Emsi).
  split; [done |]. intros Nab Nr Nm.
  f_equal. unfold spec_rules.
  destruct r; try done.
  assert (fgt a b = false) as -> by (destruct a, b; done).
  assert (fgt m ms = false) as -> by (destruct m, ms; done).
  assert (flt m ms = false) as -> by (destruct m, ms; done).
  done.
Qed.

Lemma C2_undefined_operands_fire_no_rule_witness :
  let sma20 := [NaN; Fin 1] in
  let sma50 := [NaN; NaN] in
  let rsi := [NaN; NaN] in
  let macd := [NaN; Fin 0] in
  let macd_signal := [NaN; NaN] in
  let h := indicator_table sma20 sma50 rsi macd macd_signal in
  has_col h 0 "SMA_20" sma20 /\ has_col h 0 "SMA_50" sma50 /\
  has_col h 0 "RSI" rsi /\
  has_col h 0 "MACD" macd /\ has_col h 0 "MACD_signal" macd_signal /\
  (forall x, fgt NaN x = false /\ fgt x NaN = false /\
             flt NaN x = false /\ flt x NaN = false) /\
  exists sig pos,
    value (signals_of 0 h) = inr (sig, pos) /\
    forall i a b r m ms,
      sma20 !! i = Some a -> sma50 !! i = Some b -> rsi !! i = Some r ->
      macd !! i = Some m -> macd_signal !! i = Some ms ->
      sig !! i = Some (spec_rules a b r m ms) /\
      (is_nan a || is_nan b = true -> is_nan r = true ->
       is_nan m || is_nan ms = true ->
       sig !! i = Some (Fin 0)).
Proof.
  intros sma20 sma50 rsi macd macd_signal h.
  assert (H20 : has_col h 0 "SMA_20" sma20)
    by (eexists; repeat split; reflexivity).
  assert (H50 : has_col h 0 "SMA_50" sma50)
    by (eexists; repeat split; reflexivity).
  assert (Hr : has_col h 0 "RSI" rsi)
    by (eexists; repeat split; reflexivity).
  assert (Hm : has_col h 0 "MACD" macd)
    by (eexists; repeat split; reflexivity).
  assert (Hms : has_col h 0 "MACD_signal" macd_signal)
    by (eexists; repeat split; reflexivity).
  do 5 (split; [assumption |]).
  exact (C2_undefined_operands_fire_no_rule h 0 sma20 sma50 rsi macd macd_signal
           H20 H50 Hr Hm Hms).
Defined.

(** C2 as stated fails: on the closes 1, 2 the averages SMA_20, SMA_50 and
    the RSI are undefined at step 1, while MACD is above its signal line
    there, and the signal of step 1 is +1. *)
Lemma C2_counterexample :
  let h := price_table [Fin 1; Fin 2] in
  value ((d <- calculate_technical_indicators 0 ;; getcol d "SMA_20") h) =
    inr [NaN; NaN] /\
  value ((d <- calculate_technical_indicators 0 ;; getcol d "SMA_50") h) =
    inr [NaN; NaN] /\
  value ((d <- calculate_technical_indicators 0 ;; getcol d "RSI") h) =
    inr [NaN; NaN] /\
  value ((d <- calculate_technical_indicators 0 ;; signals_of d) h) =
    inr ([Fin 0; Fin 1], [NaN; Fin 1]).
Proof. repeat split; vm_compute; reflexivity. Qed.

(** ** Position changes *)

Lemma diff_length xs : length (pd.diff xs) = length xs.
Proof.
  destruct xs as [| x t]; [done |]. simpl.
  rewrite length_zip_with. simpl. lia.
Qed.

Lemma diff_lookup_0 xs x : xs !! 0 = Some x -> pd.diff xs !! 0 = Some NaN.
Proof. by destruct xs. Qed.

Lemma diff_lookup_S xs i a b :
  xs !! i = Some a -> xs !! S i = Some b ->
  pd.diff xs !! S i = Some (fsub b a).
Proof.
  destruct xs as [| x t]; [done |]. intros Ea Eb. simpl in Eb. simpl.
  by rewrite lookup_zip_with, Eb, Ea.
Qed.

Lemma partial_sum_empty xs : partial_sum xs 1 0 = Fin 0.
Proof. done. Qed.

Lemma partial_sum_S xs i x :
  xs !! S i = Some x ->
  partial_sum xs 1 (S i) = fadd (partial_sum xs 1 i) x.
Proof.
  intros Ex. unfold partial_sum.
  replace (S (S i) - 1) with (S i) by lia.
  replace (S i - 1) with i by lia.
  rewrite (take_S_r _ _ x) by (by rewrite lookup_drop).
  by rewrite foldl_app.
Qed.

Lemma telescope_step s0 si sj :
  is_signal s0 -> is_signal si -> is_signal sj ->
  fadd (fsub si s0) (fsub sj si) = fsub sj s0.
Proof.
  intros [-> | [-> | ->]] [-> | [-> | ->]] [-> | [-> | ->]]; reflexivity.
Qed.

Lemma telescope sig :
  (forall i x, sig !! i = Some x -> is_signal x) ->
  forall i s0 si,
    sig !! 0 = Some s0 -> sig !! i = Some si ->
    partial_sum (pd.diff sig) 1 i = fsub si s0.
Proof.
  intros Hsig. induction i as [| i IH]; intros s0 si E0 Ei.
  - rewrite E0 in Ei. injection Ei as <-. rewrite partial_sum_empty.
    by destruct (Hsig 0 s0 E0) as [-> | [-> | ->]].
  - destruct (lookup_lt_is_Some_2 sig i) as [sp Ep];
      [apply lookup_lt_Some in Ei; lia |].
    rewrite (partial_sum_S _ _ _ (diff_lookup_S _ _ _ _ Ep Ei)).
    rewrite (IH s0 sp E0 Ep).
    apply telescope_step; eauto.
Qed.

(** C3, as the code has it.  The position change of the first step is
    undefined (NaN, which equals neither +1 nor -1, so it is no trigger); from
    the second step on it is the difference of consecutive signals, and the
    sum of position_change[1..i] is signal[i] - signal[0]. *)
Theorem C3_position_changes_telescope h ld sma20 sma50 rsi macd macd_signal :
  has_col h ld "SMA_20" sma20 -> has_col h ld "SMA_50" sma50 ->
  has_col h ld "RSI" rsi ->
  has_col h ld "MACD" macd -> has_col h ld "MACD_signal" macd_signal ->
  exists sig pos,
    value (signals_of ld h) = inr (sig, pos) /\
    length pos = length sig /\
    (forall s0, sig !! 0 = Some s0 -> pos !! 0 = Some NaN) /\
    (feqb NaN (Fin 1) = false /\ feqb NaN (Fin (-1)) = false) /\
    (forall i a b,
       sig !! i = Some a -> sig !! S i = Some b ->
       pos !! S i = Some (fsub b a)) /\
    (forall i s0 si,
       sig !! 0 = Some s0 -> sig !! i = Some si ->
       partial_sum pos 1 i = fsub si s0).
Proof.
  intros H20 H50 Hr Hm Hms.
  destruct (has_col_same _ _ _ _ _ _ H20 H50) as (d & Hd & E20 & E50 & L20 & L50).
  destruct (has_col_same _ _ _ _ _ _ Hr Hm) as (d1 & Hd1 & Er & Em & Lr & Lm).
  rewrite Hd in Hd1. injection Hd1 as <-.
  destruct Hms as (d2 & Hd2 & Ems & Lms).
  rewrite Hd in Hd2. injection Hd2 as <-.
  eexists _, _; split;
    [exact (signals_of_run h ld _ _ _ _ _ d Hd E20 E50 Er Em Ems) |].
  set (sig := signal_column _ _ _ _ _ _).
  split; [apply diff_length |].
  split; [intros s0; apply diff_lookup_0 |].
  split; [done |].
  split; [intros i a b; apply diff_lookup_S |].
  apply telescope. intros i x Ex.
  assert (Hi : i < nrows d).
  { apply lookup_lt_Some in Ex. unfold sig in Ex.
    by rewrite signal_column_length in Ex. }
  destruct (lookup_lt_is_Some_2 sma20 i) as [a Ea]; [lia |].
  destruct (lookup_lt_is_Some_2 sma50 i) as [b Eb]; [lia |].
  destruct (lookup_lt_is_Some_2 rsi i) as [r Ei]; [lia |].
  destruct (lookup_lt_is_Some_2 macd i) as [m Emi]; [lia |].
  destruct (lookup_lt_is_Some_2 macd_signal i) as [ms Emsi]; [lia |].
  unfold sig in Ex.
  rewrite (signal_column_lookup _ _ _ _ _ _ i a b r m ms Hi Ea Eb Ei Emi Emsi) in Ex.
  injection Ex as <-. apply spec_rules_range.
Qed.

Lemma C3_position_changes_telescope_witness :
  let sma20 := [Fin 2; Fin 1; Fin 1] in
  let sma50 := [Fin 1; Fin 2; Fin 2] in
  let rsi := [Fin 80; Fin 50; Fin 50] in
  let macd := [Fin 1; Fin 0; Fin 1] in
  let macd_signal := [Fin 0; Fin 1; Fin 1] in
  let h := indicator_table sma20 sma50 rsi macd macd_signal in
  has_col h 0 "SMA_20" sma20 /\ has_col h 0 "SMA_50" sma50 /\
  has_col h 0 "RSI" rsi /\
  has_col h 0 "MACD" macd /\ has_col h 0 "MACD_signal" macd_signal /\
  exists sig pos,
    value (signals_of 0 h) = inr (sig, pos) /\
    length pos = length sig /\
    (forall s0, sig !! 0 = Some s0 -> pos !! 0 = Some NaN) /\
    (feqb NaN (Fin 1) = false /\ feqb NaN (Fin (-1)) = false) /\
    (forall i a b,
       sig !! i = Some a -> sig !! S i = Some b ->
       pos !! S i = Some (fsub b a)) /\
    (forall i s0 si,
       sig !! 0 = Some s0 -> sig !! i = Some si ->
       partial_sum pos 1 i = fsub si s0).
Proof.
  intros sma20 sma50 rsi macd macd_signal h.
  assert (H20 : has_col h 0 "SMA_20" sma20)
    by (eexists; repeat split; reflexivity).
  assert (H50 : has_col h 0 "SMA_50" sma50)
    by (eexists; repeat split; reflexivity).
  assert (Hr : has_col h 0 "RSI" rsi)
    by (eexists; repeat split; reflexivity).
  assert (Hm : has_col h 0 "MACD" macd)
    by (eexists; repeat split; reflexivity).
  assert (Hms : has_col h 0 "MACD_signal" macd_signal)
    by (eexists; repeat split; reflexivity).
  do 5 (split; [assumption |]).
  exact (C3_position_changes_telescope h 0 sma20 sma50 rsi macd macd_signal
           H20 H50 Hr Hm Hms).
Defined.

(** C3 as stated fails: on the closes 1, 2 the first position change is
    NaN, not 0, and so is the sum of position_change[0..1], while
    signal[1] - signal[0] is 1. *)
Lemma C3_counterexample :
  exists sig pos,
    value ((d <- calculate_technical_indicators 0 ;; signals_of d)
             (price_table [Fin 1; Fin 2])) = inr (sig, pos) /\
    pos !! 0 = Some NaN /\ pos !! 0 <> Some (Fin 0) /\
    partial_sum pos 0 1 = NaN /\
    sig !! 0 = Some (Fin 0) /\ sig !! 1 = Some (Fin 1) /\
    partial_sum pos 0 1 <> fsub (Fin 1) (Fin 0).
Proof.
  eexists _, _. split; [vm_compute; reflexivity |].
  repeat split; try reflexivity; discriminate.
Qed.

(** ** The RSI *)

Lemma fcmp_Fin a b : fcmp (Fin a) (Fin b) = Some (a ?= b)%Q.
Proof. reflexivity. Qed.

Lemma fle_Fin a b : fle (Fin a) (Fin b) = true <-> (a <= b)%Q.
Proof.
  unfold fle. rewrite fcmp_Fin, Qle_alt.
  destruct (a ?= b)%Q; split; try done; congruence.
Qed.

Lemma flt_Fin a b : flt (Fin a) (Fin b) = true <-> (a < b)%Q.
Proof.
  unfold flt. rewrite fcmp_Fin, Qlt_alt.
  destruct (a ?= b)%Q; split; try done; congruence.
Qed.

Lemma Qeq_bool_neg q : (q < 0)%Q -> Qeq_bool q 0 = false.
Proof.
  intros Hq. destruct (Qeq_bool q 0) eqn:E; [| done].
  apply Qeq_bool_eq in E. rewrite E in Hq. by apply Qlt_irrefl in Hq.
Qed.

Lemma flt_0_nonneg x : flt (Fin 0) x = true -> fle (Fin 0) x = true.
Proof. unfold flt, fle. by destruct (fcmp (Fin 0) x) as [[] |]. Qed.

Lemma fadd_nonneg x y :
  fle (Fin 0) x = true -> fle (Fin 0) y = true ->
  fle (Fin 0) (fadd x y) = true.
Proof.
  destruct x as [a | | | |], y as [b | | | |]; try done; unfold fadd, fin;
    rewrite ?fle_0_Fin; intros Ha Hb; rewrite Qred_correct; try done.
  rewrite <- (Qplus_0_r 0). by apply Qplus_le_compat.
Qed.

Lemma fneg_of_negative x :
  flt x (Fin 0) = true -> fle (Fin 0) (fneg x) = true.
Proof.
  destruct x as [a | | | |]; try done.
  intros Ha. apply flt_Fin in Ha.
  unfold fneg, fin. rewrite (Qeq_bool_neg a Ha).
  apply fle_0_Fin. rewrite Qred_correct.
  apply (Qopp_le_compat a 0). by apply Qlt_le_weak.
Qed.

Lemma fsum_nonneg xs :
  Forall (fun x => fle (Fin 0) x = true) xs -> fle (Fin 0) (pd.fsum xs) = true.
Proof.
  destruct xs as [| x t]; [done |]. intros Hxs.
  apply Forall_cons in Hxs as [Hx Ht]. unfold pd.fsum.
  revert x Hx. induction Ht as [| y t Hy Ht IH]; intros x Hx; [done |].
  cbn [fold_left]. apply IH. by apply fadd_nonneg.
Qed.

Lemma of_nat_pos w : 0 < w -> exists q, of_nat w = Fin q /\ (0 < q)%Q.
Proof.
  intros Hw. eexists; split; [reflexivity |].
  rewrite Qred_correct. unfold Qlt, inject_Z; cbn [Qnum Qden]. lia.
Qed.

(* a trailing mean of non-negative numbers is NaN or non-negative *)
Lemma rolling_mean_nonneg w xs i m :
  0 < w -> Forall (fun x => fle (Fin 0) x = true) xs ->
  pd.rolling_mean w xs !! i = Some m ->
  m = NaN \/ fle (Fin 0) m = true.
Proof.
  intros Hw Hxs. unfold pd.rolling_mean.
  rewrite list_lookup_imap.
  destruct (xs !! i) as [x |]; [| done]. cbn [fmap option_fmap option_map].
  intros [= <-].
  destruct (_ && _); [| by left]. right.
  destruct (of_nat_pos w Hw) as (q & -> & Hq).
  apply fdiv_nonneg; [| done]. apply fsum_nonneg.
  unfold pd.window. by apply Forall_take, Forall_drop.
Qed.

Lemma gains_nonneg delta :
  Forall (fun x => fle (Fin 0) x = true)
    (pd.where_ delta (pd.gt_scalar delta (Fin 0)) (Fin 0)).
Proof.
  unfold pd.where_, pd.gt_scalar. apply Forall_lookup. intros i x.
  rewrite lookup_zip_with, lookup_map.
  destruct (delta !! i) as [d |]; [| done].
  cbn [mbind option_bind fmap option_fmap option_map]. intros [= <-].
  destruct (fgt d (Fin 0)) eqn:E; [| done]. by apply flt_0_nonneg.
Qed.

Lemma losses_nonneg delta :
  Forall (fun x => fle (Fin 0) x = true)
    (pd.neg (pd.where_ delta (pd.lt_scalar delta (Fin 0)) (Fin 0))).
Proof.
  unfold pd.neg, pd.where_, pd.lt_scalar. apply Forall_lookup. intros i x.
  rewrite lookup_map, lookup_zip_with, lookup_map.
  destruct (delta !! i) as [d |]; [| done].
  cbn [mbind option_bind fmap option_fmap option_map]. intros [= <-].
  destruct (flt d (Fin 0)) eqn:E; [| done]. by apply fneg_of_negative.
Qed.

Lemma fgt_0_not_zero g : fgt g (Fin 0) = true -> is_zero g = false.
Proof.
  destruct g as [a | | | |]; try done.
  unfold fgt. intros Ha. apply flt_Fin in Ha. by apply Qeq_bool_pos.
Qed.

Lemma rsi_of_saturates g l :
  is_zero l = true -> fgt g (Fin 0) = true -> rsi_of g l = Fin 100.
Proof.
  intros Hl Hg. pose proof (fgt_0_not_zero g Hg) as Hz.
  assert (Hd : fdiv g l = PInf \/ fdiv g l = NInf).
  { unfold fdiv.
    destruct g as [a | | | |], l as [b | | | |]; try done;
      cbn [is_nan is_inf orb]; rewrite ?Hl, ?Hz;
      unfold finf; destruct (xorb _ _); auto. }
  unfold rsi_of. by destruct Hd as [-> | ->].
Qed.

Lemma rsi_of_flat g l :
  is_zero l = true -> is_zero g = true -> rsi_of g l = NaN.
Proof.
  intros Hl Hg. unfold rsi_of.
  assert (fdiv g l = NaN) as ->; [| done].
  unfold fdiv.
  destruct g as [a | | | |], l as [b | | | |]; try done;
    cbn [is_nan is_inf orb]; by rewrite ?Hl, ?Hg.
Qed.

Lemma fdiv_Fin_pos a b :
  (0 <= a)%Q -> (0 < b)%Q ->
  exists q, fdiv (Fin a) (Fin b) = Fin q /\ (0 <= q)%Q.
Proof.
  intros Ha Hb. unfold fdiv. cbn [is_nan is_inf is_zero orb signbit fval].
  rewrite (Qeq_bool_pos b Hb).
  rewrite !signbit_nonneg by (done || by apply Qlt_le_weak).
  destruct (Qeq_bool a 0); eexists; (split; [reflexivity |]); [done |].
  rewrite Qred_correct. apply Qle_shift_div_l; [done |].
  by rewrite Qmult_0_l.
Qed.

(* two finite means, the loss one positive *)
Lemma rsi_of_finite a b :
  (0 <= a)%Q -> (0 < b)%Q ->
  exists q, rsi_of (Fin a) (Fin b) = Fin q /\ (0 <= q)%Q /\ (q <= 100)%Q.
Proof.
  intros Ha Hb. unfold rsi_of.
  destruct (fdiv_Fin_pos a b Ha Hb) as (q1 & -> & H1).
  cbn [fadd]. unfold fin.
  set (q2 := Qred (1 + q1)).
  assert (H2 : (1 <= q2)%Q).
  { unfold q2. rewrite Qred_correct.
    rewrite <- (Qplus_0_r 1) at 1. by apply Qplus_le_r. }
  assert (P2 : (0 < q2)%Q) by (eapply Qlt_le_trans; [| exact H2]; done).
  assert (E3 : fdiv (Fin 100) (Fin q2) = Fin (Qred (100 / q2))).
  { unfold fdiv. cbn [is_nan is_inf is_zero orb signbit fval].
    by rewrite (Qeq_bool_pos q2 P2). }
  rewrite E3. set (q3 := Qred (100 / q2)).
  assert (P3 : (0 < q3)%Q).
  { unfold q3. rewrite Qred_correct.
    apply Qlt_shift_div_l; [done |]. by rewrite Qmult_0_l. }
  assert (L3 : (q3 <= 100)%Q).
  { unfold q3. rewrite Qred_correct.
    apply Qle_shift_div_r; [done |].
    rewrite <- (Qmult_1_r 100) at 1. by apply Qmult_le_l. }
  unfold fsub, fneg. rewrite (Qeq_bool_pos q3 P3). cbn [fadd]. unfold fin.
  eexists; split; [reflexivity |].
  rewrite !Qred_correct. split.
  - rewrite <- (Qplus_opp_r q3). by apply Qplus_le_l.
  - rewrite <- (Qplus_0_r 100) at 2. apply Qplus_le_r.
    apply (Qopp_le_compat 0 q3). by apply Qlt_le_weak.
Qed.

Lemma nonneg_not_zero_pos g :
  fle (Fin 0) g = true -> is_zero g = false -> fgt g (Fin 0) = true.
Proof.
  destruct g as [a | | | |]; try done.
  intros Hg Hz. apply fle_0_Fin in Hg. cbn [is_zero] in Hz.
  unfold fgt. apply flt_Fin.
  apply Qle_lteq in Hg as [Hg | Hg]; [done |].
  rewrite <- Hg in Hz. done.
Qed.

(* wherever it is a number, the RSI of two non-negative means is in
   [0, 100] *)
Lemma rsi_of_range g l :
  g = NaN \/ fle (Fin 0) g = true -> l = NaN \/ fle (Fin 0) l = true ->
  is_nan (rsi_of g l) = false ->
  fle (Fin 0) (rsi_of g l) = true /\ fle (rsi_of g l) (Fin 100) = true.
Proof.
  intros [-> | Hg] [-> | Hl]; try done; [by destruct g |].
  destruct (is_zero l) eqn:Zl.
  { destruct (is_zero g) eqn:Zg; [by rewrite rsi_of_flat |].
    by rewrite rsi_of_saturates by (done || by apply nonneg_not_zero_pos). }
  pose proof (nonneg_not_zero_pos l Hl Zl) as Pl.
  destruct l as [b | | | |]; try done.
  - unfold fgt in Pl. apply flt_Fin in Pl.
    destruct g as [a | | | |]; try done.
    + apply fle_0_Fin in Hg.
      destruct (rsi_of_finite a b Hg Pl) as (q & -> & H0 & H100).
      intros _. by rewrite fle_0_Fin, fle_Fin.
    + intros _. unfold rsi_of, fdiv.
      cbn [is_nan is_inf is_zero orb signbit fval].
      rewrite (Qeq_bool_pos b Pl).
      by rewrite signbit_nonneg by by apply Qlt_le_weak.
    + intros _. unfold rsi_of, fdiv.
      cbn [is_nan is_inf is_zero orb signbit fval].
      by rewrite signbit_nonneg by by apply Qlt_le_weak.
  - destruct g as [a | | | |]; try done.
    apply fle_0_Fin in Hg. intros _. unfold rsi_of, fdiv.
    cbn [is_nan is_inf is_zero orb signbit fval].
    by rewrite signbit_nonneg by done.
Qed.

Lemma rolling_mean_length w xs : length (pd.rolling_mean w xs) = length xs.
Proof. unfold pd.rolling_mean. by rewrite length_imap. Qed.

Lemma RSI_gain_length w close : length (RSI_gain w close) = length close.
Proof.
  unfold RSI_gain, pd.where_, pd.gt_scalar.
  rewrite rolling_mean_length, length_zip_with, length_map, diff_length. lia.
Qed.

Lemma RSI_loss_length w close : length (RSI_loss w close) = length close.
Proof.
  unfold RSI_loss, pd.neg, pd.where_, pd.lt_scalar.
  rewrite rolling_mean_length, length_map, length_zip_with, length_map,
    diff_length. lia.
Qed.

Lemma calculate_RSI_run h ld d close w :
  h !! ld = Some d -> cols d !! "Close" = Some close ->
  calculate_RSI ld w h =
  inr (pd.scalar_sub (Fin 100)
         (pd.scalar_div (Fin 100)
            (pd.scalar_add (Fin 1)
               (pd.div (RSI_gain w close) (RSI_loss w close)))), h).
Proof.
  intros Hd Hc. unfold calculate_RSI.
  by rewrite (run_bind _ _ _ _ _ (getcol_ok _ _ _ _ _ Hd Hc)).
Qed.

Lemma rsi_lookup w close i g l :
  RSI_gain w close !! i = Some g -> RSI_loss w close !! i = Some l ->
  pd.scalar_sub (Fin 100)
    (pd.scalar_div (Fin 100)
       (pd.scalar_add (Fin 1)
          (pd.div (RSI_gain w close) (RSI_loss w close)))) !! i =
  Some (rsi_of g l).
Proof.
  intros Eg El. unfold pd.scalar_sub, pd.scalar_div, pd.scalar_add, pd.div.
  by rewrite !lookup_map, lookup_zip_with, Eg, El.
Qed.

(** C4, as the code has it.  Where the trailing mean loss is 0 and the
    trailing mean gain is positive the RSI is exactly 100, and wherever the
    RSI is a number it lies in [0, 100].  (A mean loss of 0 is itself a
    number, so the window is full there.) *)
Theorem C4_rsi_saturates_and_is_bounded h ld close w :
  has_col h ld "Close" close -> 0 < w ->
  exists rsi,
    value (calculate_RSI ld w h) = inr rsi /\
    length rsi = length close /\
    forall i g l r,
      RSI_gain w close !! i = Some g -> RSI_loss w close !! i = Some l ->
      rsi !! i = Some r ->
      r = rsi_of g l /\
      (is_zero l = true -> fgt g (Fin 0) = true -> r = Fin 100) /\
      (is_nan r = false -> fle (Fin 0) r = true /\ fle r (Fin 100) = true).
Proof.
  intros (d & Hd & Hc & _) Hw.
  eexists. rewrite (calculate_RSI_run h ld d close w Hd Hc).
  split; [reflexivity |]. split.
  { unfold pd.scalar_sub, pd.scalar_div, pd.scalar_add, pd.div.
    rewrite !length_map, length_zip_with, RSI_gain_length, RSI_loss_length.
    lia. }
  intros i g l r Eg El Er.
  rewrite (rsi_lookup w close i g l Eg El) in Er. injection Er as <-.
  split; [done |]. split; [apply rsi_of_saturates |].
  apply rsi_of_range.
  - exact (rolling_mean_nonneg w _ i g Hw (gains_nonneg _) Eg).
  - exact (rolling_mean_nonneg w _ i l Hw (losses_nonneg _) El).
Qed.

Lemma C4_rsi_saturates_and_is_bounded_witness :
  let close := [Fin 1; Fin 2; Fin 3; Fin 2] in
  has_col (price_table close) 0 "Close" close /\ 0 < 2 /\
  exists rsi,
    value (calculate_RSI 0 2 (price_table close)) = inr rsi /\
    length rsi = length close /\
    forall i g l r,
      RSI_gain 2 close !! i = Some g -> RSI_loss 2 close !! i = Some l ->
      rsi !! i = Some r ->
      r = rsi_of g l /\
      (is_zero l = true -> fgt g (Fin 0) = true -> r = Fin 100) /\
      (is_nan r = false -> fle (Fin 0) r = true /\ fle r (Fin 100) = true).
Proof.
  intros close.
  assert (Hc : has_col (price_table close) 0 "Close" close)
    by (eexists; repeat split; reflexivity).
  assert (Hw : 0 < 2) by lia.
  split; [assumption |]. split; [assumption |].
  exact (C4_rsi_saturates_and_is_bounded _ 0 close 2 Hc Hw).
Defined.

(* with the window of the witness: saturated at steps 1 and 2, then 50 *)
Example rsi_of_a_rise_and_a_fall :
  value (calculate_RSI 0 2 (price_table [Fin 1; Fin 2; Fin 3; Fin 2])) =
  inr [NaN; Fin 100; Fin 100; Fin 50].
Proof. vm_compute. reflexivity. Qed.

(** C4 as stated fails: on fifteen equal closes the window of 14 is full at
    step 14 and the trailing mean loss is zero there, yet the RSI of that
    step is NaN, not 100. *)
Lemma C4_counterexample :
  let close := replicate 15 (Fin 100) in
  exists l rsi,
    RSI_loss 14 close !! 14 = Some l /\ is_zero l = true /\
    value (calculate_RSI 0 14 (price_table close)) = inr rsi /\
    rsi !! 14 = Some NaN /\ rsi !! 14 <> Some (Fin 100).
Proof.
  intros close. eexists _, _.
  split; [vm_compute; reflexivity |].
  split; [reflexivity |].
  split; [vm_compute; reflexivity |].
  split; [reflexivity | discriminate].
Qed.

(** ** Who writes where *)

Lemma ewm_from_length a prev xs : length (pd.ewm_from a prev xs) = length xs.
Proof.
  revert prev. induction xs as [| x t IH]; intros prev; [done |].
  cbn [pd.ewm_from length]. by rewrite IH.
Qed.

Lemma ewm_mean_length span xs : length (pd.ewm_mean span xs) = length xs.
Proof.
  destruct xs as [| x t]; [done |].
  cbn [pd.ewm_mean length]. by rewrite ewm_from_length.
Qed.

Lemma MACD_line_length s l close : length (MACD_line s l close) = length close.
Proof.
  unfold MACD_line, pd.sub. rewrite length_zip_with, !ewm_mean_length. lia.
Qed.

Lemma MACD_signal_line_length s l g close :
  length (MACD_signal_line s l g close) = length close.
Proof.
  unfold MACD_signal_line. by rewrite ewm_mean_length, MACD_line_length.
Qed.

Lemma RSI_series_length w close : length (RSI_series w close) = length close.
Proof.
  unfold RSI_series, pd.scalar_sub, pd.scalar_div, pd.scalar_add, pd.div.
  rewrite !length_map, length_zip_with, RSI_gain_length, RSI_loss_length.
  lia.
Qed.

Lemma calculate_MACD_run h ld d close s l g :
  h !! ld = Some d -> cols d !! "Close" = Some close ->
  calculate_MACD ld s l g h =
  inr ((MACD_line s l close, MACD_signal_line s l g close,
        MACD_histogram s l g close), h).
Proof.
  intros Hd Hc. unfold calculate_MACD.
  by rewrite (run_bind _ _ _ _ _ (getcol_ok _ _ _ _ _ Hd Hc)).
Qed.

(* the engine assigns six columns into the table it was handed *)
Lemma calculate_technical_indicators_run h ld d close :
  h !! ld = Some d -> cols d !! "Close" = Some close ->
  calculate_technical_indicators ld h =
  inr (ld, <[ld := Frame (nrows d) (with_indicators close (cols d))]> h).
Proof.
  intros Hd Hc.
  assert (Hlt : ld < length h) by (by eapply lookup_lt_Some).
  assert (Hs : forall g, <[ld := g]> h !! ld = Some g)
    by (intros g; by apply upd_same).
  unfold calculate_technical_indicators.
  rewrite (run_bind _ _ _ _ _ (getcol_ok _ _ _ _ _ Hd Hc)).
  rewrite (run_bind _ _ _ _ _ (setcol_ok _ _ _ _ _ Hd)).
  erewrite run_bind; cycle 1.
  { eapply getcol_ok; [apply Hs |]. cbn [cols].
    by rewrite lookup_insert_ne. }
  rewrite (run_bind _ _ _ _ _ (setcol_ok _ _ _ _ _ (Hs _))).
  cbn [nrows cols]. rewrite list_insert_insert_eq.
  erewrite run_bind; cycle 1.
  { eapply calculate_RSI_run; [apply Hs |]. cbn [cols].
    by rewrite !lookup_insert_ne. }
  rewrite (run_bind _ _ _ _ _ (setcol_ok _ _ _ _ _ (Hs _))).
  cbn [nrows cols]. rewrite list_insert_insert_eq.
  erewrite run_bind; cycle 1.
  { eapply calculate_MACD_run; [apply Hs |]. cbn [cols].
    by rewrite !lookup_insert_ne. }
  cbn [fst snd].
  rewrite (run_bind _ _ _ _ _ (setcol_ok _ _ _ _ _ (Hs _))).
  cbn [nrows cols]. rewrite list_insert_insert_eq.
  rewrite (run_bind _ _ _ _ _ (setcol_ok _ _ _ _ _ (Hs _))).
  cbn [nrows cols]. rewrite list_insert_insert_eq.
  rewrite (run_bind _ _ _ _ _ (setcol_ok _ _ _ _ _ (Hs _))).
  cbn [nrows cols]. rewrite list_insert_insert_eq.
  done.
Qed.

Lemma with_indicators_other close m c :
  c ∉ indicator_columns -> with_indicators close m !! c = m !! c.
Proof.
  intros Hc. unfold indicator_columns in Hc.
  repeat (apply not_elem_of_cons in Hc as [? Hc]).
  unfold with_indicators. by rewrite !lookup_insert_ne.
Qed.

Lemma with_indicators_columns close m :
  with_indicators close m !! "SMA_20" = Some (pd.rolling_mean 20 close) /\
  with_indicators close m !! "SMA_50" = Some (pd.rolling_mean 50 close) /\
  with_indicators close m !! "RSI" = Some (RSI_series 14 close) /\
  with_indicators close m !! "MACD" = Some (MACD_line 12 26 close) /\
  with_indicators close m !! "MACD_signal" =
    Some (MACD_signal_line 12 26 9 close).
Proof.
  unfold with_indicators.
  repeat split; rewrite ?lookup_insert_ne by done; by rewrite lookup_insert_eq.
Qed.

Lemma generate_signals_run h ld sma20 sma50 rsi macd macd_signal d :
  h !! ld = Some d ->
  cols d !! "SMA_20" = Some sma20 -> cols d !! "SMA_50" = Some sma50 ->
  cols d !! "RSI" = Some rsi ->
  cols d !! "MACD" = Some macd -> cols d !! "MACD_signal" = Some macd_signal ->
  let sig := signal_column (nrows d) sma20 sma50 rsi macd macd_signal in
  generate_signals ld h =
  inr (length h,
       h ++ [Frame (nrows d) (<["positions" := pd.diff sig]> (<["signal" := sig]> ∅))]).
Proof.
  intros Hd E20 E50 Er Em Ems sig. unfold generate_signals.
  by rewrite (run_bind _ _ _ _ _
                (trading_strategy_run h ld _ _ _ _ _ d Hd E20 E50 Er Em Ems)).
Qed.

(** C8, as the code has it.  The indicator engine works in place: it hands
    back the table it was given, with the six indicator columns assigned
    into it, and leaves every other column of that table (the closes among
    them) and every other table as they were.  The signal generator and the
    simulator build new tables and write into no table that existed
    before. *)
Theorem C8_only_indicator_columns_are_written h ld close cap :
  has_col h ld "Close" close ->
  exists h1 h2 h3 ls lp,
    calculate_technical_indicators ld h = inr (ld, h1) /\
    generate_signals ld h1 = inr (ls, h2) /\
    execute_orders ld ls cap h2 = inr (lp, h3) /\
    main ld cap h = inr (lp, h3) /\
    length h1 = length h /\
    (forall l, l <> ld -> h1 !! l = h !! l) /\
    (exists d d1,
       h !! ld = Some d /\ h1 !! ld = Some d1 /\ nrows d1 = nrows d /\
       forall c, c ∉ indicator_columns -> cols d1 !! c = cols d !! c) /\
    ls = length h1 /\
    (forall l, l < length h1 -> h2 !! l = h1 !! l) /\
    length h2 <= lp /\
    (forall l, l < length h2 -> h3 !! l = h2 !! l).
Proof.
  intros (d & Hd & Hc & Lc).
  assert (Hlt : ld < length h) by (by eapply lookup_lt_Some).
  set (d1 := Frame (nrows d) (with_indicators close (cols d))).
  set (h1 := <[ld := d1]> h).
  assert (Hd1 : h1 !! ld = Some d1) by (by apply upd_same).
  set (sig := signal_column (nrows d1) (pd.rolling_mean 20 close)
                (pd.rolling_mean 50 close) (RSI_series 14 close)
                (MACD_line 12 26 close) (MACD_signal_line 12 26 9 close)).
  set (s := Frame (nrows d1) (<["positions" := pd.diff sig]> (<["signal" := sig]> ∅))).
  set (h2 := h1 ++ [s]).
  assert (Hclose1 : cols d1 !! "Close" = Some close).
  { unfold d1; cbn [cols]. rewrite with_indicators_other; [done |].
    unfold indicator_columns. rewrite !not_elem_of_cons.
    repeat split; try done. apply not_elem_of_nil. }
  destruct (with_indicators_columns close (cols d))
    as (E20 & E50 & Er & Em & Ems).
  assert (Hp2 : has_col h2 (length h1) "positions" (pd.diff sig)).
  { exists s. split; [| split].
    - unfold h2. rewrite lookup_app_r by lia. by rewrite Nat.sub_diag.
    - done.
    - unfold sig. rewrite diff_length, signal_column_length. done. }
  assert (Hc2 : has_col h2 ld "Close" close).
  { exists d1. split; [| split]; [| done | done].
    unfold h2. rewrite lookup_app_l; [done |].
    unfold h1. by rewrite length_insert. }
  eexists h1, h2, _, (length h1), (length h2 + 2).
  split; [exact (calculate_technical_indicators_run h ld d close Hd Hc) |].
  split; [exact (generate_signals_run h1 ld _ _ _ _ _ d1 Hd1 E20 E50 Er Em Ems) |].
  assert (Hrun : execute_orders ld (length h1) cap h2 =
                 inr (length h2 + 2,
                      h2 ++ [Frame (length (pd.diff sig)) ∅;
                             Frame (length (pd.diff sig)) ∅;
                             Frame (length (pd.diff sig))
                               (book (turns close (pd.diff sig) cap
                                        (length (pd.diff sig) - 1)))])).
  { apply (execute_orders_run h2 ld (length h1) cap close (pd.diff sig) Hc2 Hp2).
    left. unfold sig. rewrite diff_length, signal_column_length.
    unfold d1; cbn [nrows]. lia. }
  split; [exact Hrun |].
  split.
  { unfold main.
    rewrite (run_bind _ _ _ _ _
               (calculate_technical_indicators_run h ld d close Hd Hc)).
    fold d1 h1.
    rewrite (run_bind _ _ _ _ _
               (generate_signals_run h1 ld _ _ _ _ _ d1 Hd1 E20 E50 Er Em Ems)).
    exact Hrun. }
  split; [by apply length_insert |].
  split; [intros l Hl; by apply list_lookup_insert_ne |].
  split.
  { exists d, d1. repeat split; try done.
    intros c Hcn. by apply with_indicators_other. }
  split; [done |].
  split; [intros l Hl; unfold h2; by rewrite lookup_app_l |].
  split; [lia |].
  intros l Hl. by rewrite lookup_app_l.
Qed.

Lemma C8_only_indicator_columns_are_written_witness :
  let close := [Fin 1; Fin 2] in
  let h := price_table close in
  has_col h 0 "Close" close /\
  exists h1 h2 h3 ls lp,
    calculate_technical_indicators 0 h = inr (0, h1) /\
    generate_signals 0 h1 = inr (ls, h2) /\
    execute_orders 0 ls (Fin 100) h2 = inr (lp, h3) /\
    main 0 (Fin 100) h = inr (lp, h3) /\
    length h1 = length h /\
    (forall l, l <> 0 -> h1 !! l = h !! l) /\
    (exists d d1,
       h !! 0 = Some d /\ h1 !! 0 = Some d1 /\ nrows d1 = nrows d /\
       forall c, c ∉ indicator_columns -> cols d1 !! c = cols d !! c) /\
    ls = length h1 /\
    (forall l, l < length h1 -> h2 !! l = h1 !! l) /\
    length h2 <= lp /\
    (forall l, l < length h2 -> h3 !! l = h2 !! l).
Proof.
  intros close h.
  assert (Hc : has_col h 0 "Close" close)
    by (eexists; repeat split; reflexivity).
  split; [assumption |].
  exact (C8_only_indicator_columns_are_written h 0 close (Fin 100) Hc).
Defined.

(** C8 as stated fails: the table the caller handed in has no SMA_20
    column before the engine runs and has one after, under the same
    reference; the engine has written into its predecessor's output. *)
Lemma C8_counterexample :
  let h := price_table [Fin 1; Fin 2] in
  value (getcol 0 "SMA_20" h) = inl (KeyError "SMA_20") /\
  exists h1,
    calculate_technical_indicators 0 h = inr (0, h1) /\
    value (getcol 0 "SMA_20" h1) = inr [NaN; NaN] /\
    h1 !! 0 <> h !! 0.
Proof.
  intros h. split; [reflexivity |].
  eexists. split; [vm_compute; reflexivity |].
  split; [vm_compute; reflexivity |].
  intros E.
  apply (f_equal (fun o => o ≫= fun f => cols f !! "SMA_20")) in E.
  vm_compute in E. discriminate E.
Qed.

(** ** The indicator engine, column by column *)

Lemma MACD_histogram_length s l g close :
  length (MACD_histogram s l g close) = length close.
Proof.
  unfold MACD_histogram, pd.sub.
  rewrite length_zip_with, MACD_line_length, MACD_signal_line_length. lia.
Qed.

Lemma with_indicators_lookup close m c xs :
  with_indicators close m !! c = Some xs ->
  ((c ∈ indicator_columns) /\ length xs = length close) \/
  ((c ∉ indicator_columns) /\ m !! c = Some xs).
Proof.
  unfold with_indicators, indicator_columns. rewrite !lookup_insert.
  repeat case_decide; subst; intros E;
    try (injection E as <-; left; split;
         [rewrite !elem_of_cons; auto 10 |
          by rewrite ?MACD_histogram_length, ?MACD_signal_line_length,
               ?MACD_line_length, ?RSI_series_length, ?rolling_mean_length]).
  right. split; [| done].
  rewrite !not_elem_of_cons. repeat split; try done. apply not_elem_of_nil.
Qed.

Lemma with_indicators_has close m c :
  c ∈ indicator_columns ->
  exists xs, with_indicators close m !! c = Some xs /\ length xs = length close.
Proof.
  unfold indicator_columns. rewrite !elem_of_cons, elem_of_nil.
  unfold with_indicators.
  intros [-> | [-> | [-> | [-> | [-> | [-> | []]]]]]];
    rewrite ?lookup_insert_ne by done; rewrite lookup_insert_eq;
    eexists; (split; [reflexivity |]);
    by rewrite ?MACD_histogram_length, ?MACD_signal_line_length,
         ?MACD_line_length, ?RSI_series_length, ?rolling_mean_length.
Qed.

(** X1.  On a table whose Close column has one entry per row the engine
    returns that table with the same rows and with each of the six
    indicator columns present, one entry per row; a table all of whose
    columns were aligned with its rows stays so. *)
Theorem engine_keeps_columns_aligned h ld close :
  has_col h ld "Close" close ->
  exists h1 d d1,
    calculate_technical_indicators ld h = inr (ld, h1) /\
    h !! ld = Some d /\ h1 !! ld = Some d1 /\
    nrows d1 = nrows d /\
    (forall c, c ∈ indicator_columns ->
               exists xs, cols d1 !! c = Some xs /\ length xs = nrows d1) /\
    (wf_table d -> wf_table d1).
Proof.
  intros (d & Hd & Hc & Lc).
  assert (Hlt : ld < length h) by (by eapply lookup_lt_Some).
  eexists _, d, _.
  split; [exact (calculate_technical_indicators_run h ld d close Hd Hc) |].
  split; [done |]. split; [by apply list_lookup_insert_eq |].
  split; [done |]. cbn [nrows cols]. split.
  - intros c Hin. rewrite <- Lc. by apply with_indicators_has.
  - intros Hwf c xs E. cbn [nrows cols] in *.
    destruct (with_indicators_lookup close (cols d) c xs E) as [[_ L] | [_ E']].
    + by rewrite L.
    + by apply (Hwf c).
Qed.

Lemma engine_keeps_columns_aligned_witness :
  let close := [Fin 1; Fin 2; Fin 3] in
  has_col (price_table close) 0 "Close" close /\
  exists h1 d d1,
    calculate_technical_indicators 0 (price_table close) = inr (0, h1) /\
    price_table close !! 0 = Some d /\ h1 !! 0 = Some d1 /\
    nrows d1 = nrows d /\
    (forall c, c ∈ indicator_columns ->
               exists xs, cols d1 !! c = Some xs /\ length xs = nrows d1) /\
    (wf_table d -> wf_table d1).
Proof.
  intros close.
  assert (Hc : has_col (price_table close) 0 "Close" close)
    by (eexists; repeat split; reflexivity).
  split; [assumption |].
  exact (engine_keeps_columns_aligned _ 0 close Hc).
Defined.

Lemma with_indicators_twice close m :
  with_indicators close (with_indicators close m) = with_indicators close m.
Proof.
  apply map_eq. intros c. unfold with_indicators.
  rewrite !lookup_insert. by repeat case_decide.
Qed.

(** X2.  The engine reads the closes only and assigns the same six columns
    each time: run on its own result it leaves the heap as it is. *)
Theorem engine_idempotent h ld close :
  has_col h ld "Close" close ->
  exists h1,
    calculate_technical_indicators ld h = inr (ld, h1) /\
    calculate_technical_indicators ld h1 = inr (ld, h1).
Proof.
  intros (d & Hd & Hc & Lc).
  assert (Hlt : ld < length h) by (by eapply lookup_lt_Some).
  eexists.
  split; [exact (calculate_technical_indicators_run h ld d close Hd Hc) |].
  set (d1 := Frame (nrows d) (with_indicators close (cols d))).
  assert (Hd1 : <[ld := d1]> h !! ld = Some d1)
    by (by apply list_lookup_insert_eq).
  assert (Hc1 : cols d1 !! "Close" = Some close).
  { unfold d1; cbn [cols]. rewrite with_indicators_other; [done |].
    unfold indicator_columns. rewrite !not_elem_of_cons.
    repeat split; try done. apply not_elem_of_nil. }
  rewrite (calculate_technical_indicators_run _ ld d1 close Hd1 Hc1).
  rewrite list_insert_insert_eq. unfold d1; cbn [nrows cols].
  by rewrite with_indicators_twice.
Qed.

Lemma engine_idempotent_witness :
  let close := [Fin 1; Fin 2; Fin 3] in
  has_col (price_table close) 0 "Close" close /\
  exists h1,
    calculate_technical_indicators 0 (price_table close) = inr (0, h1) /\
    calculate_technical_indicators 0 h1 = inr (0, h1).
Proof.
  intros close.
  assert (Hc : has_col (price_table close) 0 "Close" close)
    by (eexists; repeat split; reflexivity).
  split; [assumption |].
  exact (engine_idempotent _ 0 close Hc).
Defined.

(** X3.  On a table without a Close column the engine and its two helpers
    raise KeyError('Close'). *)
Theorem engine_needs_close h ld d w s l g :
  h !! ld = Some d -> cols d !! "Close" = None ->
  calculate_technical_indicators ld h = inl (KeyError "Close") /\
  calculate_RSI ld w h = inl (KeyError "Close") /\
  calculate_MACD ld s l g h = inl (KeyError "Close").
Proof.
  intros Hd Hc.
  pose proof (getcol_missing h ld d "Close" Hd Hc) as E.
  repeat split; by apply run_bind_raise.
Qed.

Lemma engine_needs_close_witness :
  let d := Frame 2 {["Open" := [Fin 1; Fin 2]]} in
  [d] !! 0 = Some d /\ cols d !! "Close" = None /\
  calculate_technical_indicators 0 [d] = inl (KeyError "Close") /\
  calculate_RSI 0 14 [d] = inl (KeyError "Close") /\
  calculate_MACD 0 12 26 9 [d] = inl (KeyError "Close").
Proof.
  intros d.
  assert (Hd : [d] !! 0 = Some d) by reflexivity.
  assert (Hc : cols d !! "Close" = None) by reflexivity.
  split; [assumption |]. split; [assumption |].
  exact (engine_needs_close [d] 0 d 14 12 26 9 Hd Hc).
Defined.

(** ** Warm-up and values of the indicators *)

Lemma rolling_mean_lookup w xs i :
  i < length xs ->
  pd.rolling_mean w xs !! i =
  Some (if (w <=? S i)%nat &&
           forallb (fun x => negb (is_nan x)) (pd.window w i xs)
        then fdiv (pd.fsum (pd.window w i xs)) (of_nat w)
        else NaN).
Proof.
  intros Hi. unfold pd.rolling_mean. rewrite list_lookup_imap.
  by destruct (lookup_lt_is_Some_2 xs i Hi) as [x ->].
Qed.

Lemma rolling_mean_warmup w xs i :
  i < length xs -> S i < w -> pd.rolling_mean w xs !! i = Some NaN.
Proof.
  intros Hi Hw. rewrite rolling_mean_lookup by done.
  by rewrite (proj2 (Nat.leb_gt w (S i))) by lia.
Qed.

(* the sum of finite numbers is their sum *)
Lemma fold_left_fadd_Fin qs : forall a,
  exists s, fold_left fadd (map Fin qs) (Fin a) = Fin s /\ (s == a + Qsum qs)%Q.
Proof.
  induction qs as [| q t IH]; intros a.
  - exists a. split; [done |]. cbn [Qsum foldr]. by rewrite Qplus_0_r.
  - cbn [map fold_left fadd]. unfold fin.
    destruct (IH (Qred (a + q))) as (s & -> & Hs).
    exists s. split; [done |].
    rewrite Hs, Qred_correct. cbn [Qsum foldr]. fold (Qsum t).
    by rewrite Qplus_assoc.
Qed.

Lemma fsum_Fin q qs :
  exists s, pd.fsum (map Fin (q :: qs)) = Fin s /\ (s == Qsum (q :: qs))%Q.
Proof.
  cbn [map pd.fsum]. destruct (fold_left_fadd_Fin qs q) as (s & -> & Hs).
  by exists s.
Qed.

Lemma Qeq_bool_0_signbit s : Qeq_bool s 0 = true -> (Qnum s <? 0)%Z = false.
Proof.
  intros E. apply Qeq_bool_eq in E. apply signbit_nonneg. by rewrite E.
Qed.

(* a finite number over a positive count *)
Lemma fdiv_of_nat s w :
  0 < w ->
  exists r, fdiv (Fin s) (of_nat w) = Fin r /\
            (r == s / inject_Z (Z.of_nat w))%Q.
Proof.
  intros Hw. destruct (of_nat_pos w Hw) as (q & Eq & Hq).
  assert (Hqv : (q == inject_Z (Z.of_nat w))%Q).
  { unfold of_nat, fin in Eq. injection Eq as <-. apply Qred_correct. }
  rewrite Eq. unfold fdiv. cbn [is_nan is_inf is_zero orb signbit fval].
  rewrite (Qeq_bool_pos q Hq).
  rewrite (signbit_nonneg q) by (by apply Qlt_le_weak).
  destruct (Qeq_bool s 0) eqn:Z.
  - rewrite (Qeq_bool_0_signbit s Z). exists 0%Q. split; [done |].
    apply Qeq_bool_eq in Z. rewrite Z. unfold Qdiv. by rewrite Qmult_0_l.
  - eexists; split; [reflexivity |]. by rewrite Qred_correct, Hqv.
Qed.

Lemma forallb_not_nan_Fin qs :
  forallb (fun x => negb (is_nan x)) (map Fin qs) = true.
Proof. by induction qs. Qed.

(* a full window of finite closes: the arithmetic mean *)
Lemma rolling_mean_finite w xs i q qs :
  0 < w -> i < length xs -> w <= S i ->
  pd.window w i xs = map Fin (q :: qs) ->
  exists r, pd.rolling_mean w xs !! i = Some (Fin r) /\
            (r == Qsum (q :: qs) / inject_Z (Z.of_nat w))%Q.
Proof.
  intros Hw Hi Hfull Ewin. rewrite rolling_mean_lookup by done.
  rewrite (proj2 (Nat.leb_le w (S i))) by done.
  rewrite Ewin, forallb_not_nan_Fin. cbn [andb].
  destruct (fsum_Fin q qs) as (s & -> & Hs).
  destruct (fdiv_of_nat s w Hw) as (r & -> & Hr).
  exists r. split; [done |]. by rewrite Hr, Hs.
Qed.

(** X4.  After the engine has run, SMA_20 is NaN at the first 19 steps and
    SMA_50 at the first 49; at a later step whose trailing 20 (50) closes are
    finite, it is their arithmetic mean. *)
Theorem sma_warmup_then_mean h ld close :
  has_col h ld "Close" close ->
  exists h1 sma20 sma50,
    calculate_technical_indicators ld h = inr (ld, h1) /\
    value (getcol ld "SMA_20" h1) = inr sma20 /\
    value (getcol ld "SMA_50" h1) = inr sma50 /\
    (forall i, i < length close -> i < 19 -> sma20 !! i = Some NaN) /\
    (forall i, i < length close -> i < 49 -> sma50 !! i = Some NaN) /\
    (forall i q qs,
       i < length close -> 19 <= i ->
       pd.window 20 i close = map Fin (q :: qs) ->
       exists r, sma20 !! i = Some (Fin r) /\ (r == Qsum (q :: qs) / 20)%Q) /\
    (forall i q qs,
       i < length close -> 49 <= i ->
       pd.window 50 i close = map Fin (q :: qs) ->
       exists r, sma50 !! i = Some (Fin r) /\ (r == Qsum (q :: qs) / 50)%Q).
Proof.
  intros (d & Hd & Hc & Lc).
  assert (Hlt : ld < length h) by (by eapply lookup_lt_Some).
  destruct (with_indicators_columns close (cols d)) as (E20 & E50 & _).
  eexists _, _, _.
  split; [exact (calculate_technical_indicators_run h ld d close Hd Hc) |].
  split.
  { erewrite getcol_ok; [reflexivity | by apply list_lookup_insert_eq |].
    exact E20. }
  split.
  { erewrite getcol_ok; [reflexivity | by apply list_lookup_insert_eq |].
    exact E50. }
  split; [intros i Hi Hw; apply rolling_mean_warmup; lia |].
  split; [intros i Hi Hw; apply rolling_mean_warmup; lia |].
  split.
  - intros i q qs Hi Hw Ewin.
    by apply (rolling_mean_finite 20 close i q qs); [lia | | lia |].
  - intros i q qs Hi Hw Ewin.
    by apply (rolling_mean_finite 50 close i q qs); [lia | | lia |].
Qed.

Lemma sma_warmup_then_mean_witness :
  let close := [Fin 1; Fin 2; Fin 3] in
  has_col (price_table close) 0 "Close" close /\
  exists h1 sma20 sma50,
    calculate_technical_indicators 0 (price_table close) = inr (0, h1) /\
    value (getcol 0 "SMA_20" h1) = inr sma20 /\
    value (getcol 0 "SMA_50" h1) = inr sma50 /\
    (forall i, i < length close -> i < 19 -> sma20 !! i = Some NaN) /\
    (forall i, i < length close -> i < 49 -> sma50 !! i = Some NaN) /\
    (forall i q qs,
       i < length close -> 19 <= i ->
       pd.window 20 i close = map Fin (q :: qs) ->
       exists r, sma20 !! i = Some (Fin r) /\ (r == Qsum (q :: qs) / 20)%Q) /\
    (forall i q qs,
       i < length close -> 49 <= i ->
       pd.window 50 i close = map Fin (q :: qs) ->
       exists r, sma50 !! i = Some (Fin r) /\ (r == Qsum (q :: qs) / 50)%Q).
Proof.
  intros close.
  assert (Hc : has_col (price_table close) 0 "Close" close)
    by (eexists; repeat split; reflexivity).
  split; [assumption |].
  exact (sma_warmup_then_mean _ 0 close Hc).
Defined.

(* the rolling mean at work on a window of 2 *)
Example rolling_mean_of_2 :
  pd.rolling_mean 2 [Fin 1; Fin 2; Fin 4] = [NaN; Fin (3 # 2); Fin 3].
Proof. vm_compute. reflexivity. Qed.

(** X5.  The RSI is NaN at every step before its window is full: at the
    first window - 1 steps. *)
Theorem rsi_warmup h ld close w :
  has_col h ld "Close" close ->
  exists rsi,
    value (calculate_RSI ld w h) = inr rsi /\
    forall i, i < length close -> S i < w -> rsi !! i = Some NaN.
Proof.
  intros (d & Hd & Hc & _).
  eexists. rewrite (calculate_RSI_run h ld d close w Hd Hc).
  split; [reflexivity |]. intros i Hi Hw.
  rewrite (rsi_lookup w close i NaN NaN); [done | |].
  - apply rolling_mean_warmup; [| done].
    pose proof (RSI_gain_length w close) as L. unfold RSI_gain in L.
    rewrite rolling_mean_length in L. lia.
  - apply rolling_mean_warmup; [| done].
    pose proof (RSI_loss_length w close) as L. unfold RSI_loss in L.
    rewrite rolling_mean_length in L. lia.
Qed.

Lemma rsi_warmup_witness :
  let close := [Fin 1; Fin 2; Fin 3] in
  has_col (price_table close) 0 "Close" close /\
  exists rsi,
    value (calculate_RSI 0 14 (price_table close)) = inr rsi /\
    forall i, i < length close -> S i < 14 -> rsi !! i = Some NaN.
Proof.
  intros close.
  assert (Hc : has_col (price_table close) 0 "Close" close)
    by (eexists; repeat split; reflexivity).
  split; [assumption |].
  exact (rsi_warmup _ 0 close 14 Hc).
Defined.

(** ** The MACD *)





(* the averages at work: spans 1 and 3 on the closes 1, 2, 4 *)
Example ewm_mean_of_three :
  pd.ewm_mean 3 [Fin 1; Fin 2; Fin 4] = [Fin 1; Fin (3 # 2); Fin (11 # 4)].
Proof. vm_compute. reflexivity. Qed.

(** ** The signal generator: missing columns, position changes *)

(** X7.  [trading_strategy] reads SMA_20, SMA_50, RSI, MACD and MACD_signal
    in that order: it raises KeyError for the first of them the table lacks,
    and with none lacking it returns a new table. *)
Theorem strategy_needs_its_columns h ld d :
  h !! ld = Some d ->
  match first_missing d with
  | Some c => trading_strategy ld h = inl (KeyError c)
  | None =>
      exists h', trading_strategy ld h = inr (length h, h') /\
                 length h' = S (length h)
  end.
Proof.
  intros Hd.
  assert (Hld : ld < length h) by (by eapply lookup_lt_Some).
  unfold first_missing, strategy_columns, absent. cbn [find].
  unfold trading_strategy.
  rewrite (run_bind _ _ _ _ _ (DataFrame_ok _ _ _ Hd)).
  set (ls := length h). set (n := nrows d). set (H0 := h ++ _).
  assert (L0 : ls < length H0)
    by (unfold H0, ls; rewrite length_app; simpl; lia).
  assert (Hs0 : H0 !! ls = Some (Frame n ∅)).
  { unfold H0, ls. rewrite lookup_app_r by lia. by rewrite Nat.sub_diag. }
  assert (Hne : ls <> ld) by (unfold ls; lia).
  assert (Hd' : forall g, <[ls := g]> H0 !! ld = Some d).
  { intros g. rewrite upd_other by done. unfold H0. by rewrite lookup_app_l. }
  assert (Hs' : forall g, <[ls := g]> H0 !! ls = Some g)
    by (intros g; by apply upd_same).
  rewrite (run_bind _ _ _ _ _ (setcol_scalar_ok _ _ _ "signal" (Fin 0) Hs0)).
  cbn [nrows cols].
  destruct (cols d !! "SMA_20") as [sma20 |] eqn:E20;
    [| by rewrite (run_bind_raise _ _ _ _ (getcol_missing _ _ _ _ (Hd' _) E20))].
  rewrite (run_bind _ _ _ _ _ (getcol_ok _ _ _ _ _ (Hd' _) E20)).
  destruct (cols d !! "SMA_50") as [sma50 |] eqn:E50;
    [| by rewrite (run_bind_raise _ _ _ _ (getcol_missing _ _ _ _ (Hd' _) E50))].
  rewrite (run_bind _ _ _ _ _ (getcol_ok _ _ _ _ _ (Hd' _) E50)).
  rewrite (run_bind _ _ _ _ _
             (loc_mask_assign_ok _ _ _ _ _ _ _ (Hs' _) (lookup_insert_eq _ _ _))).
  cbn [nrows cols]. rewrite list_insert_insert_eq, insert_insert_eq.
  destruct (cols d !! "RSI") as [rsi |] eqn:Er;
    [| by rewrite (run_bind_raise _ _ _ _ (getcol_missing _ _ _ _ (Hd' _) Er))].
  destruct (cols d !! "MACD") as [macd |] eqn:Em; cycle 1.
  { rewrite (run_bind _ _ _ _ _ (getcol_ok _ _ _ _ _ (Hd' _) Er)).
    rewrite (run_bind _ _ _ _ _
               (loc_mask_assign_ok _ _ _ _ _ _ _ (Hs' _) (lookup_insert_eq _ _ _))).
    cbn [nrows cols]. rewrite list_insert_insert_eq.
    by rewrite (run_bind_raise _ _ _ _ (getcol_missing _ _ _ _ (Hd' _) Em)). }
  destruct (cols d !! "MACD_signal") as [macd_signal |] eqn:Ems; cycle 1.
  { rewrite (run_bind _ _ _ _ _ (getcol_ok _ _ _ _ _ (Hd' _) Er)).
    rewrite (run_bind _ _ _ _ _
               (loc_mask_assign_ok _ _ _ _ _ _ _ (Hs' _) (lookup_insert_eq _ _ _))).
    cbn [nrows cols]. rewrite list_insert_insert_eq.
    rewrite (run_bind _ _ _ _ _ (getcol_ok _ _ _ _ _ (Hd' _) Em)).
    by rewrite (run_bind_raise _ _ _ _ (getcol_missing _ _ _ _ (Hd' _) Ems)). }
  eexists. split.
  - pose proof (trading_strategy_run h ld sma20 sma50 rsi macd macd_signal d
                  Hd E20 E50 Er Em Ems) as R.
    unfold trading_strategy in R.
    rewrite (run_bind _ _ _ _ _ (DataFrame_ok _ _ _ Hd)) in R.
    fold ls n H0 in R.
    rewrite (run_bind _ _ _ _ _ (setcol_scalar_ok _ _ _ "signal" (Fin 0) Hs0)) in R.
    cbn [nrows cols] in R.
    rewrite (run_bind _ _ _ _ _ (getcol_ok _ _ _ _ _ (Hd' _) E20)) in R.
    rewrite (run_bind _ _ _ _ _ (getcol_ok _ _ _ _ _ (Hd' _) E50)) in R.
    rewrite (run_bind _ _ _ _ _
               (loc_mask_assign_ok _ _ _ _ _ _ _ (Hs' _) (lookup_insert_eq _ _ _))) in R.
    cbn [nrows cols] in R. rewrite list_insert_insert_eq, insert_insert_eq in R.
    exact R.
  - rewrite length_app. simpl. lia.
Qed.

Lemma strategy_needs_its_columns_witness :
  let d := Frame 1 (<["SMA_20" := [Fin 1]]> {["Close" := [Fin 1]]}) in
  [d] !! 0 = Some d /\
  match first_missing d with
  | Some c => trading_strategy 0 [d] = inl (KeyError c)
  | None =>
      exists h', trading_strategy 0 [d] = inr (length [d], h') /\
                 length h' = S (length [d])
  end.
Proof.
  intros d.
  assert (Hd : [d] !! 0 = Some d) by reflexivity.
  split; [assumption |].
  exact (strategy_needs_its_columns [d] 0 d Hd).
Defined.

(* the table of the witness has SMA_20 and lacks SMA_50 *)
Example missing_sma50 :
  trading_strategy 0
    [Frame 1 (<["SMA_20" := [Fin 1]]> {["Close" := [Fin 1]]})] =
  inl (KeyError "SMA_50").
Proof. vm_compute. reflexivity. Qed.

Lemma signal_column_is_signal n sma20 sma50 rsi macd macd_signal i x :
  length sma20 = n -> length sma50 = n -> length rsi = n ->
  length macd = n -> length macd_signal = n ->
  signal_column n sma20 sma50 rsi macd macd_signal !! i = Some x ->
  is_signal x.
Proof.
  intros L20 L50 Lr Lm Lms Ex.
  assert (Hi : i < n).
  { apply lookup_lt_Some in Ex. by rewrite signal_column_length in Ex. }
  destruct (lookup_lt_is_Some_2 sma20 i) as [a Ea]; [lia |].
  destruct (lookup_lt_is_Some_2 sma50 i) as [b Eb]; [lia |].
  destruct (lookup_lt_is_Some_2 rsi i) as [r Er]; [lia |].
  destruct (lookup_lt_is_Some_2 macd i) as [m Em]; [lia |].
  destruct (lookup_lt_is_Some_2 macd_signal i) as [ms Ems]; [lia |].
  rewrite (signal_column_lookup _ _ _ _ _ _ i a b r m ms Hi Ea Eb Er Em Ems) in Ex.
  injection Ex as <-. apply spec_rules_range.
Qed.

Lemma diff_lookup_S_inv xs i p :
  pd.diff xs !! S i = Some p ->
  exists a b, xs !! i = Some a /\ xs !! S i = Some b /\ p = fsub b a.
Proof.
  intros Ep. pose proof (lookup_lt_Some _ _ _ Ep) as Hi.
  rewrite diff_length in Hi.
  destruct (lookup_lt_is_Some_2 xs i) as [a Ea]; [lia |].
  destruct (lookup_lt_is_Some_2 xs (S i) Hi) as [b Eb].
  rewrite (diff_lookup_S xs i a b Ea Eb) in Ep. injection Ep as <-. eauto.
Qed.

Lemma fsub_signals a b :
  is_signal a -> is_signal b -> is_position_change (fsub b a).
Proof.
  unfold is_position_change.
  intros [-> | [-> | ->]] [-> | [-> | ->]];
    change (fsub _ _) with (Fin 0) || change (fsub _ _) with (Fin 1) ||
    change (fsub _ _) with (Fin 2) || change (fsub _ _) with (Fin (-1)) ||
    change (fsub _ _) with (Fin (-2)); auto 10.
Qed.

(** X8.  From the second step on every position change is one of -2, -1, 0,
    +1, +2.  A signal that turns from +1 to -1 gives -2 and one that turns
    from -1 to +1 gives +2, and neither value equals +1 or -1: such a step
    is no order for the simulator. *)
Theorem position_changes_range h ld sma20 sma50 rsi macd macd_signal :
  has_col h ld "SMA_20" sma20 -> has_col h ld "SMA_50" sma50 ->
  has_col h ld "RSI" rsi ->
  has_col h ld "MACD" macd -> has_col h ld "MACD_signal" macd_signal ->
  exists sig pos,
    value (signals_of ld h) = inr (sig, pos) /\
    (forall i p, pos !! S i = Some p -> is_position_change p) /\
    (forall i, sig !! i = Some (Fin 1) -> sig !! S i = Some (Fin (-1)) ->
               pos !! S i = Some (Fin (-2))) /\
    (forall i, sig !! i = Some (Fin (-1)) -> sig !! S i = Some (Fin 1) ->
               pos !! S i = Some (Fin 2)) /\
    (forall p, p = Fin 2 \/ p = Fin (-2) ->
               feqb p (Fin 1) = false /\ feqb p (Fin (-1)) = false).
Proof.
  intros H20 H50 Hr Hm Hms.
  destruct (has_col_same _ _ _ _ _ _ H20 H50) as (d & Hd & E20 & E50 & L20 & L50).
  destruct (has_col_same _ _ _ _ _ _ Hr Hm) as (d1 & Hd1 & Er & Em & Lr & Lm).
  rewrite Hd in Hd1. injection Hd1 as <-.
  destruct Hms as (d2 & Hd2 & Ems & Lms).
  rewrite Hd in Hd2. injection Hd2 as <-.
  eexists _, _; split;
    [exact (signals_of_run h ld _ _ _ _ _ d Hd E20 E50 Er Em Ems) |].
  split; [| split; [| split]].
  - intros i p Ep.
    destruct (diff_lookup_S_inv _ _ _ Ep) as (a & b & Ea & Eb & ->).
    apply fsub_signals.
    + exact (signal_column_is_signal _ _ _ _ _ _ i a L20 L50 Lr Lm Lms Ea).
    + exact (signal_column_is_signal _ _ _ _ _ _ (S i) b L20 L50 Lr Lm Lms Eb).
  - intros i Ea Eb. by rewrite (diff_lookup_S _ _ _ _ Ea Eb).
  - intros i Ea Eb. by rewrite (diff_lookup_S _ _ _ _ Ea Eb).
  - by intros p [-> | ->].
Qed.

Lemma position_changes_range_witness :
  let sma20 := [Fin 2; Fin 1] in
  let sma50 := [Fin 1; Fin 2] in
  let rsi := [Fin 80; Fin 50] in
  let macd := [Fin 1; Fin 0] in
  let macd_signal := [Fin 0; Fin 1] in
  let h := indicator_table sma20 sma50 rsi macd macd_signal in
  has_col h 0 "SMA_20" sma20 /\ has_col h 0 "SMA_50" sma50 /\
  has_col h 0 "RSI" rsi /\
  has_col h 0 "MACD" macd /\ has_col h 0 "MACD_signal" macd_signal /\
  exists sig pos,
    value (signals_of 0 h) = inr (sig, pos) /\
    (forall i p, pos !! S i = Some p -> is_position_change p) /\
    (forall i, sig !! i = Some (Fin 1) -> sig !! S i = Some (Fin (-1)) ->
               pos !! S i = Some (Fin (-2))) /\
    (forall i, sig !! i = Some (Fin (-1)) -> sig !! S i = Some (Fin 1) ->
               pos !! S i = Some (Fin 2)) /\
    (forall p, p = Fin 2 \/ p = Fin (-2) ->
               feqb p (Fin 1) = false /\ feqb p (Fin (-1)) = false).
Proof.
  intros sma20 sma50 rsi macd macd_signal h.
  assert (H20 : has_col h 0 "SMA_20" sma20)
    by (eexists; repeat split; reflexivity).
  assert (H50 : has_col h 0 "SMA_50" sma50)
    by (eexists; repeat split; reflexivity).
  assert (Hr : has_col h 0 "RSI" rsi)
    by (eexists; repeat split; reflexivity).
  assert (Hm : has_col h 0 "MACD" macd)
    by (eexists; repeat split; reflexivity).
  assert (Hms : has_col h 0 "MACD_signal" macd_signal)
    by (eexists; repeat split; reflexivity).
  do 5 (split; [assumption |]).
  exact (position_changes_range h 0 sma20 sma50 rsi macd macd_signal
           H20 H50 Hr Hm Hms).
Defined.

(** ** The simulator: what it reads, what a step leaves behind *)

Lemma portfolio_at h n a :
  (h ++ [Frame n ∅; Frame n ∅; Frame n (book a)]) !! (length h + 2) =
  Some (Frame n (book a)).
Proof.
  rewrite lookup_app_r by lia.
  by replace (length h + 2 - length h) with 2 by lia.
Qed.

(** X9.  With a signal table of at most one row the loop of
    [execute_orders] has no turn, and nothing is read from either table:
    whatever the price table is (or lacks), the trajectory is the opening
    one, every row holding the initial capital and no shares. *)
Theorem at_most_one_row_reads_nothing h ld ls s cap :
  h !! ls = Some s -> nrows s <= 1 ->
  value (trajectory ld ls cap h) = inr (opening (nrows s) cap).
Proof.
  intros Hs Hn. unfold trajectory.
  erewrite run_bind; cycle 1.
  { rewrite (execute_orders_setup h ld ls s cap Hs).
    replace (nrows s - 1) with 0 by lia. reflexivity. }
  by rewrite (read_portfolio_ok _ _ (nrows s) _ (portfolio_at h _ _)).
Qed.

Lemma at_most_one_row_reads_nothing_witness :
  let s := Frame 1 ∅ in
  [s] !! 0 = Some s /\ nrows s <= 1 /\
  value (trajectory 7 0 (Fin 100) [s]) = inr (opening (nrows s) (Fin 100)).
Proof.
  intros s.
  assert (Hs : [s] !! 0 = Some s) by reflexivity.
  assert (Hn : nrows s <= 1) by (simpl; lia).
  split; [assumption |]. split; [assumption |].
  exact (at_most_one_row_reads_nothing [s] 7 0 s (Fin 100) Hs Hn).
Defined.

Lemma iloc_missing h l f c i :
  h !! l = Some f -> cols f !! c = None -> iloc l c i h = inl (KeyError c).
Proof.
  intros E Ec. unfold iloc.
  by rewrite (run_bind_raise _ _ _ _ (getcol_missing _ _ _ _ E Ec)).
Qed.

(** X10.  With two signal rows or more the first turn reads the tables: a
    signal table without a 'positions' column raises KeyError('positions'),
    and a price table without a 'Close' column raises KeyError('Close'). *)
Theorem first_turn_needs_its_columns h ld ls d s cap :
  h !! ld = Some d -> h !! ls = Some s -> 2 <= nrows s ->
  (cols s !! "positions" = None ->
   execute_orders ld ls cap h = inl (KeyError "positions")) /\
  (forall ps, cols s !! "positions" = Some ps -> 1 <= length ps ->
              cols d !! "Close" = None ->
              execute_orders ld ls cap h = inl (KeyError "Close")).
Proof.
  intros Hd Hs Hn.
  assert (Hld : ld < length h) by (by eapply lookup_lt_Some).
  assert (Hls : ls < length h) by (by eapply lookup_lt_Some).
  rewrite (execute_orders_setup h ld ls s cap Hs).
  set (n := nrows s). set (lp := length h + 2). set (H0 := h ++ _).
  assert (Hp0 : H0 !! lp = Some (Frame n (book (opening n cap))))
    by apply portfolio_at.
  assert (Hd0 : H0 !! ld = Some d) by (unfold H0; by rewrite lookup_app_l).
  assert (Hs0 : H0 !! ls = Some s) by (unfold H0; by rewrite lookup_app_l).
  unfold for_range. replace (n - 1) with (S (n - 2)) by (unfold n; lia).
  cbn [for_range_from].
  split.
  - intros Ep. do 2 apply run_bind_raise. unfold order_step.
    apply run_bind_raise. by apply (iloc_missing _ _ s).
  - intros ps Ep Lp Ec. do 2 apply run_bind_raise. unfold order_step.
    destruct (lookup_lt_is_Some_2 ps 0) as [p E0]; [lia |].
    rewrite (run_bind _ _ _ _ _ (iloc_ok _ _ _ _ _ _ _ Hs0 Ep E0)).
    pose proof (iloc_missing H0 ld d "Close" 0 Hd0 Ec) as Eclose.
    assert (Ecash : forall j, j < n ->
              iloc lp "cash" j H0 = inr (cap, H0)).
    { intros j Hj. apply (iloc_ok _ _ _ _ _ _ _ Hp0 (book_cash _)).
      by apply lookup_replicate_2. }
    assert (Ehold : forall j, j < n ->
              iloc lp "holdings" j H0 = inr (Fin 0, H0)).
    { intros j Hj. apply (iloc_ok _ _ _ _ _ _ _ Hp0 (book_holdings _)).
      by apply lookup_replicate_2. }
    destruct (feqb p (Fin 1)); [| destruct (feqb p (Fin (-1)))].
    + apply run_bind_raise.
      rewrite (run_bind _ _ _ _ _ (Ecash 0 ltac:(unfold n; lia))).
      by apply run_bind_raise.
    + apply run_bind_raise.
      rewrite (run_bind _ _ _ _ _ (Ehold 0 ltac:(unfold n; lia))).
      by apply run_bind_raise.
    + rewrite (run_bind _ _ _ _ _ (eq_refl : ret tt H0 = inr (tt, H0))).
      rewrite (run_bind _ _ _ _ _ (Ecash (0 + 1) ltac:(unfold n; lia))).
      rewrite (run_bind _ _ _ _ _ (Ehold (0 + 1) ltac:(unfold n; lia))).
      by apply run_bind_raise.
Qed.

Lemma first_turn_needs_its_columns_witness :
  let d := Frame 2 {["Open" := [Fin 1; Fin 2]]} in
  let s := Frame 2 {["positions" := [NaN; Fin 1]]} in
  [d; s] !! 0 = Some d /\ [d; s] !! 1 = Some s /\ 2 <= nrows s /\
  (cols s !! "positions" = None ->
   execute_orders 0 1 (Fin 100) [d; s] = inl (KeyError "positions")) /\
  (forall ps, cols s !! "positions" = Some ps -> 1 <= length ps ->
              cols d !! "Close" = None ->
              execute_orders 0 1 (Fin 100) [d; s] = inl (KeyError "Close")).
Proof.
  intros d s.
  assert (Hd : [d; s] !! 0 = Some d) by reflexivity.
  assert (Hs : [d; s] !! 1 = Some s) by reflexivity.
  assert (Hn : 2 <= nrows s) by (simpl; lia).
  split; [assumption |]. split; [assumption |]. split; [assumption |].
  exact (first_turn_needs_its_columns [d; s] 0 1 d s (Fin 100) Hd Hs Hn).
Defined.

(* the table of the witness: positions present, Close missing *)
Example missing_close_in_the_loop :
  execute_orders 0 1 (Fin 100)
    [Frame 2 {["Open" := [Fin 1; Fin 2]]};
     Frame 2 {["positions" := [NaN; Fin 1]]}] = inl (KeyError "Close").
Proof. vm_compute. reflexivity. Qed.

(** X11.  The loop has no branch for a position change that is neither +1
    nor -1 (0, +2, -2 or NaN): it writes neither cash nor holdings of the
    next row, which therefore keeps the values its columns were created
    with, the initial capital and no shares, whatever the account held at
    the step before.  The first row is never written at all. *)
Theorem untriggered_row_keeps_opening_values h ld ls cap close ps :
  has_col h ld "Close" close -> has_col h ls "positions" ps ->
  length ps <= length close ->
  exists a,
    value (trajectory ld ls cap h) = inr a /\
    (0 < length ps ->
     cash a !! 0 = Some cap /\ holdings a !! 0 = Some (Fin 0) /\
     total a !! 0 = Some cap) /\
    forall i p x,
      S i < length ps -> ps !! i = Some p -> close !! i = Some x ->
      feqb p (Fin 1) = false -> feqb p (Fin (-1)) = false ->
      cash a !! S i = Some cap /\ holdings a !! S i = Some (Fin 0) /\
      total a !! S i = Some (fadd cap (fmul (Fin 0) x)).
Proof.
  intros Hc Hp Hl.
  eexists; split;
    [exact (trajectory_run h ld ls cap close ps Hc Hp (or_introl Hl)) |].
  split; [apply turns_first |].
  intros i p x Hi Ep Ex N1 N2.
  destruct (turns_lengths close ps cap (length ps - 1)) as (L1 & L2 & _).
  destruct (lookup_lt_is_Some_2 (cash (turns close ps cap (length ps - 1))) i)
    as [c Ec]; [lia |].
  destruct (lookup_lt_is_Some_2 (holdings (turns close ps cap (length ps - 1))) i)
    as [hl Eh]; [lia |].
  destruct (turns_row close ps cap (length ps - 1) i p x c hl)
    as (R1 & R2 & R3); try done; [lia |].
  rewrite N1, N2 in R1. rewrite N1 in R2. rewrite N1, N2 in R3. done.
Qed.

Lemma untriggered_row_keeps_opening_values_witness :
  let close := [Fin 10; Fin 10; Fin 10; Fin 10] in
  let ps := [NaN; Fin 1; Fin 0; Fin 0] in
  has_col (market close ps) 0 "Close" close /\
  has_col (market close ps) 1 "positions" ps /\
  length ps <= length close /\
  exists a,
    value (trajectory 0 1 (Fin 100) (market close ps)) = inr a /\
    (0 < length ps ->
     cash a !! 0 = Some (Fin 100) /\ holdings a !! 0 = Some (Fin 0) /\
     total a !! 0 = Some (Fin 100)) /\
    forall i p x,
      S i < length ps -> ps !! i = Some p -> close !! i = Some x ->
      feqb p (Fin 1) = false -> feqb p (Fin (-1)) = false ->
      cash a !! S i = Some (Fin 100) /\ holdings a !! S i = Some (Fin 0) /\
      total a !! S i = Some (fadd (Fin 100) (fmul (Fin 0) x)).
Proof.
  intros close ps.
  assert (Hc : has_col (market close ps) 0 "Close" close)
    by (eexists; repeat split; reflexivity).
  assert (Hp : has_col (market close ps) 1 "positions" ps)
    by (eexists; repeat split; reflexivity).
  assert (Hl : length ps <= length close) by (simpl; lia).
  do 3 (split; [assumption |]).
  exact (untriggered_row_keeps_opening_values _ 0 1 (Fin 100) close ps
           Hc Hp Hl).
Defined.

(** ** Trades at finite prices *)

Lemma fdiv_Fin c x :
  (0 < x)%Q -> exists r, fdiv (Fin c) (Fin x) = Fin r /\ (r == c / x)%Q.
Proof.
  intros Hx. unfold fdiv. cbn [is_nan is_inf is_zero orb signbit fval].
  rewrite (Qeq_bool_pos x Hx).
  rewrite (signbit_nonneg x) by (by apply Qlt_le_weak).
  destruct (Qeq_bool c 0) eqn:Z.
  - rewrite (Qeq_bool_0_signbit c Z). exists 0%Q. split; [done |].
    apply Qeq_bool_eq in Z. rewrite Z. unfold Qdiv. by rewrite Qmult_0_l.
  - eexists; split; [reflexivity |]. apply Qred_correct.
Qed.

Lemma fmul_Fin a x :
  (0 < x)%Q -> exists r, fmul (Fin a) (Fin x) = Fin r /\ (r == a * x)%Q.
Proof.
  intros Hx. unfold fmul. cbn [is_nan is_inf is_zero orb signbit fval].
  rewrite (Qeq_bool_pos x Hx), orb_false_r.
  rewrite (signbit_nonneg x) by (by apply Qlt_le_weak).
  destruct (Qeq_bool a 0) eqn:Z.
  - rewrite (Qeq_bool_0_signbit a Z). exists 0%Q. split; [done |].
    apply Qeq_bool_eq in Z. rewrite Z. by rewrite Qmult_0_l.
  - eexists; split; [reflexivity |]. apply Qred_correct.
Qed.




(** X13.  A buy at step i followed at once by a sell at step i+1, at finite
    positive closes: the shares bought are cash[i] / close[i], and two rows
    on the cash is that number of shares times close[i+1], with no shares
    left. *)
Theorem buy_then_sell h ld ls cap close ps :
  has_col h ld "Close" close -> has_col h ls "positions" ps ->
  length ps <= length close ->
  exists a,
    value (trajectory ld ls cap h) = inr a /\
    forall i p p' x x' c,
      S (S i) < length ps ->
      ps !! i = Some p -> ps !! S i = Some p' ->
      feqb p (Fin 1) = true ->
      feqb p' (Fin 1) = false -> feqb p' (Fin (-1)) = true ->
      close !! i = Some (Fin x) -> close !! S i = Some (Fin x') ->
      (0 < x)%Q -> (0 < x')%Q ->
      cash a !! i = Some (Fin c) ->
      cash a !! S i = Some (Fin 0) /\
      holdings a !! S (S i) = Some (Fin 0) /\
      exists sh r,
        holdings a !! S i = Some (Fin sh) /\ (sh == c / x)%Q /\
        cash a !! S (S i) = Some (Fin r) /\ (r == c / x * x')%Q.
Proof.
  intros Hc Hp Hl.
  eexists; split;
    [exact (trajectory_run h ld ls cap close ps Hc Hp (or_introl Hl)) |].
  intros i p p' x x' c Hi Ep Ep' B N Sl Ex Ex' Hx Hx' Ec.
  destruct (turns_lengths close ps cap (length ps - 1)) as (L1 & L2 & _).
  destruct (lookup_lt_is_Some_2
              (holdings (turns close ps cap (length ps - 1))) i)
    as [hl Eh]; [lia |].
  destruct (turns_row close ps cap (length ps - 1) i p (Fin x) (Fin c) hl)
    as (R1 & R2 & _); try done; [lia | lia |].
  rewrite B in R1, R2.
  destruct (fdiv_Fin c x Hx) as (sh & Esh & Hsh). rewrite Esh in R2.
  destruct (turns_row close ps cap (length ps - 1) (S i) p' (Fin x')
              (Fin 0) (Fin sh))
    as (Q1 & Q2 & _); try done; [lia |].
  rewrite N, Sl in Q1. rewrite N in Q2.
  destruct (fmul_Fin sh x' Hx') as (r & Er & Hr). rewrite Er in Q1.
  split; [done |]. split; [done |].
  exists sh, r. repeat split; try done. by rewrite Hr, Hsh.
Qed.

Lemma buy_then_sell_witness :
  let close := [Fin 10; Fin 20; Fin 30] in
  let ps := [Fin 1; Fin (-1); Fin 0] in
  has_col (market close ps) 0 "Close" close /\
  has_col (market close ps) 1 "positions" ps /\
  length ps <= length close /\
  exists a,
    value (trajectory 0 1 (Fin 100) (market close ps)) = inr a /\
    forall i p p' x x' c,
      S (S i) < length ps ->
      ps !! i = Some p -> ps !! S i = Some p' ->
      feqb p (Fin 1) = true ->
      feqb p' (Fin 1) = false -> feqb p' (Fin (-1)) = true ->
      close !! i = Some (Fin x) -> close !! S i = Some (Fin x') ->
      (0 < x)%Q -> (0 < x')%Q ->
      cash a !! i = Some (Fin c) ->
      cash a !! S i = Some (Fin 0) /\
      holdings a !! S (S i) = Some (Fin 0) /\
      exists sh r,
        holdings a !! S i = Some (Fin sh) /\ (sh == c / x)%Q /\
        cash a !! S (S i) = Some (Fin r) /\ (r == c / x * x')%Q.
Proof.
  intros close ps.
  assert (Hc : has_col (market close ps) 0 "Close" close)
    by (eexists; repeat split; reflexivity).
  assert (Hp : has_col (market close ps) 1 "positions" ps)
    by (eexists; repeat split; reflexivity).
  assert (Hl : length ps <= length close) by (simpl; lia).
  do 3 (split; [assumption |]).
  exact (buy_then_sell _ 0 1 (Fin 100) close ps Hc Hp Hl).
Defined.

(* the trajectory of the two witnesses: 10 shares bought at 10, sold at 20 *)
Example bought_at_10_sold_at_20 :
  value (trajectory 0 1 (Fin 100)
           (market [Fin 10; Fin 20; Fin 30] [Fin 1; Fin (-1); Fin 0])) =
  inr (Account [Fin 100; Fin 0; Fin 200]
               [Fin 0; Fin 10; Fin 0]
               [Fin 100; Fin 100; Fin 200]).
Proof. vm_compute. reflexivity. Qed.

(** ** The script, end to end *)

Lemma pipeline_signal_length close :
  length (pipeline_signal close) = length close.
Proof. apply signal_column_length. Qed.

(* the first two stages on a table of closes *)
Lemma pipeline_signals_run h ld close :
  has_col h ld "Close" close ->
  value (pipeline_signals_of ld h) =
  inr (pipeline_signal close, pd.diff (pipeline_signal close)).
Proof.
  intros (d & Hd & Hc & Lc).
  assert (Hlt : ld < length h) by (by eapply lookup_lt_Some).
  unfold pipeline_signals_of.
  rewrite (run_bind _ _ _ _ _
             (calculate_technical_indicators_run h ld d close Hd Hc)).
  destruct (with_indicators_columns close (cols d))
    as (E20 & E50 & Er & Em & Ems).
  set (d1 := Frame (nrows d) (with_indicators close (cols d))).
  assert (Hd1 : <[ld := d1]> h !! ld = Some d1)
    by (by apply list_lookup_insert_eq).
  rewrite (signals_of_run _ ld _ _ _ _ _ d1 Hd1 E20 E50 Er Em Ems).
  unfold pipeline_signal, d1. cbn [nrows]. by rewrite Lc.
Qed.

(* the three stages: the portfolio is the fold of the turns over the
   position changes of the pipeline *)
Lemma main_run h ld cap close :
  has_col h ld "Close" close ->
  let ps := pd.diff (pipeline_signal close) in
  exists lp h3,
    main ld cap h = inr (lp, h3) /\
    h3 !! lp = Some (Frame (length close)
                       (book (turns close ps cap (length close - 1)))).
Proof.
  intros (d & Hd & Hc & Lc) ps.
  assert (Hlt : ld < length h) by (by eapply lookup_lt_Some).
  destruct (with_indicators_columns close (cols d))
    as (E20 & E50 & Er & Em & Ems).
  set (d1 := Frame (nrows d) (with_indicators close (cols d))).
  set (h1 := <[ld := d1]> h).
  assert (Hd1 : h1 !! ld = Some d1) by (by apply list_lookup_insert_eq).
  assert (Hsig : signal_column (nrows d1) (pd.rolling_mean 20 close)
                   (pd.rolling_mean 50 close) (RSI_series 14 close)
                   (MACD_line 12 26 close) (MACD_signal_line 12 26 9 close) =
                 pipeline_signal close).
  { unfold pipeline_signal, d1. cbn [nrows]. by rewrite Lc. }
  assert (Lps : length ps = length close).
  { unfold ps. by rewrite diff_length, pipeline_signal_length. }
  set (s := Frame (nrows d1)
              (<["positions" := ps]> (<["signal" := pipeline_signal close]> ∅))).
  set (h2 := h1 ++ [s]).
  assert (Hclose1 : cols d1 !! "Close" = Some close).
  { unfold d1; cbn [cols]. rewrite with_indicators_other; [done |].
    unfold indicator_columns. rewrite !not_elem_of_cons.
    repeat split; try done. apply not_elem_of_nil. }
  assert (Hp2 : has_col h2 (length h1) "positions" ps).
  { exists s. split; [| split].
    - unfold h2. rewrite lookup_app_r by lia. by rewrite Nat.sub_diag.
    - done.
    - unfold s, d1. cbn [nrows]. lia. }
  assert (Hc2 : has_col h2 ld "Close" close).
  { exists d1. split; [| split]; [| done | done].
    unfold h2. rewrite lookup_app_l; [done |].
    unfold h1. by rewrite length_insert. }
  eexists _, _. split.
  - unfold main.
    rewrite (run_bind _ _ _ _ _
               (calculate_technical_indicators_run h ld d close Hd Hc)).
    fold d1 h1.
    rewrite (run_bind _ _ _ _ _
               (generate_signals_run h1 ld _ _ _ _ _ d1 Hd1 E20 E50 Er Em Ems)).
    rewrite Hsig. fold ps s h2.
    apply (execute_orders_run h2 ld (length h1) cap close ps Hc2 Hp2).
    left. lia.
  - rewrite Lps. apply portfolio_at.
Qed.

Lemma simulate_run h ld cap close :
  has_col h ld "Close" close ->
  value (simulate ld cap h) =
  inr (turns close (pd.diff (pipeline_signal close)) cap (length close - 1)).
Proof.
  intros Hc. destruct (main_run h ld cap close Hc) as (lp & h3 & E & Hp).
  unfold simulate. rewrite (run_bind _ _ _ _ _ E).
  by rewrite (read_portfolio_ok _ _ _ _ Hp).
Qed.

Lemma printed_total_run h ld cap close :
  has_col h ld "Close" close ->
  value (printed_total ld cap h) =
  match last (total (turns close (pd.diff (pipeline_signal close)) cap
                       (length close - 1))) with
  | Some x => inr x
  | None => inl IndexError
  end.
Proof.
  intros Hc. destruct (main_run h ld cap close Hc) as (lp & h3 & E & Hp).
  unfold printed_total. rewrite (run_bind _ _ _ _ _ E).
  unfold final_total.
  rewrite (run_bind _ _ _ _ _ (getcol_ok _ _ _ _ _ Hp (book_total _))).
  by destruct (last _).
Qed.

(** X14.  The script on a table of closes: the portfolio has one row per
    close; the report is the total of the last row, so the script prints a
    number for every table with at least one row and raises IndexError, at
    [iloc[-1]], for a table with none. *)
Theorem script_prints_unless_empty h ld cap close :
  has_col h ld "Close" close ->
  exists a,
    value (simulate ld cap h) = inr a /\
    length (cash a) = length close /\ length (holdings a) = length close /\
    length (total a) = length close /\
    (close = [] -> value (printed_total ld cap h) = inl IndexError) /\
    (close <> [] ->
     exists x, value (printed_total ld cap h) = inr x /\
               total a !! (length close - 1) = Some x).
Proof.
  intros Hc. eexists. split; [exact (simulate_run h ld cap close Hc) |].
  set (ps := pd.diff (pipeline_signal close)).
  assert (Lps : length ps = length close).
  { unfold ps. by rewrite diff_length, pipeline_signal_length. }
  destruct (turns_lengths close ps cap (length close - 1)) as (L1 & L2 & L3).
  rewrite Lps in L1, L2, L3.
  split; [done |]. split; [done |]. split; [done |].
  rewrite (printed_total_run h ld cap close Hc). fold ps.
  rewrite last_lookup, L3.
  replace (pred (length close)) with (length close - 1) by lia. split.
  - intros ->. by rewrite lookup_ge_None_2 by (rewrite L3; simpl; lia).
  - intros Hne.
    assert (0 < length close) by (destruct close; [done | simpl; lia]).
    destruct (lookup_lt_is_Some_2
                (total (turns close ps cap (length close - 1)))
                (length close - 1)) as [x Ex]; [lia |].
    rewrite Ex. by exists x.
Qed.

Lemma script_prints_unless_empty_witness :
  let close := [Fin 1; Fin 2; Fin 3] in
  has_col (price_table close) 0 "Close" close /\
  exists a,
    value (simulate 0 (Fin 100) (price_table close)) = inr a /\
    length (cash a) = length close /\ length (holdings a) = length close /\
    length (total a) = length close /\
    (close = [] ->
     value (printed_total 0 (Fin 100) (price_table close)) = inl IndexError) /\
    (close <> [] ->
     exists x, value (printed_total 0 (Fin 100) (price_table close)) = inr x /\
               total a !! (length close - 1) = Some x).
Proof.
  intros close.
  assert (Hc : has_col (price_table close) 0 "Close" close)
    by (eexists; repeat split; reflexivity).
  split; [assumption |].
  exact (script_prints_unless_empty _ 0 (Fin 100) close Hc).
Defined.

(* the script on no rows and on three *)
Example script_on_no_rows :
  value (printed_total 0 (Fin 100) (price_table [])) = inl IndexError.
Proof. vm_compute. reflexivity. Qed.

Example script_on_three_rows :
  value (simulate 0 (Fin 100) (price_table [Fin 1; Fin 2; Fin 3])) =
  inr (Account [Fin 100; Fin 100; Fin 0]
               [Fin 0; Fin 0; Fin 50]
               [Fin 100; Fin 100; Fin 100]).
Proof. vm_compute. reflexivity. Qed.

(** X15.  In the script the first position change is NaN, so the first turn
    of the loop trades nothing: the first two rows of the portfolio hold the
    initial capital and no shares. *)
Theorem script_trades_nothing_at_step_0 h ld cap close :
  has_col h ld "Close" close -> 2 <= length close ->
  exists a,
    value (simulate ld cap h) = inr a /\
    cash a !! 0 = Some cap /\ holdings a !! 0 = Some (Fin 0) /\
    total a !! 0 = Some cap /\
    cash a !! 1 = Some cap /\ holdings a !! 1 = Some (Fin 0).
Proof.
  intros Hc Hn. eexists. split; [exact (simulate_run h ld cap close Hc) |].
  set (ps := pd.diff (pipeline_signal close)).
  assert (Lps : length ps = length close).
  { unfold ps. by rewrite diff_length, pipeline_signal_length. }
  destruct (turns_first close ps cap (length close - 1)) as (F1 & F2 & F3);
    [lia |].
  destruct (lookup_lt_is_Some_2 close 0) as [x Ex]; [lia |].
  destruct (lookup_lt_is_Some_2 (pipeline_signal close) 0) as [s0 Es];
    [rewrite pipeline_signal_length; lia |].
  destruct (turns_row close ps cap (length close - 1) 0 NaN x cap (Fin 0))
    as (R1 & R2 & _); try done; try lia.
  unfold ps. by apply (diff_lookup_0 _ s0).
Qed.

Lemma script_trades_nothing_at_step_0_witness :
  let close := [Fin 1; Fin 2; Fin 3] in
  has_col (price_table close) 0 "Close" close /\ 2 <= length close /\
  exists a,
    value (simulate 0 (Fin 100) (price_table close)) = inr a /\
    cash a !! 0 = Some (Fin 100) /\ holdings a !! 0 = Some (Fin 0) /\
    total a !! 0 = Some (Fin 100) /\
    cash a !! 1 = Some (Fin 100) /\ holdings a !! 1 = Some (Fin 0).
Proof.
  intros close.
  assert (Hc : has_col (price_table close) 0 "Close" close)
    by (eexists; repeat split; reflexivity).
  assert (Hn : 2 <= length close) by (simpl; lia).
  split; [assumption |]. split; [assumption |].
  exact (script_trades_nothing_at_step_0 _ 0 (Fin 100) close Hc Hn).
Defined.

(** ** A flat market *)

Lemma is_fin_refl q : is_fin q (Fin q).
Proof. by exists q. Qed.

Lemma fsub_is_fin q a b : is_fin q a -> is_fin q b -> fsub a b = Fin 0.
Proof.
  intros (r & -> & Hr) (s & -> & Hs). unfold fsub, fneg.
  destruct (Qeq_bool s 0) eqn:Z; cbn [fadd]; unfold fin; f_equal;
    apply (Qred_complete _ 0).
  - apply Qeq_bool_eq in Z. by rewrite Hr, <- Hs.
  - rewrite Qred_correct, Hr, Hs. apply Qplus_opp_r.
Qed.

Lemma fmul_Fin_l b r :
  (0 < b)%Q -> exists s, fmul (Fin b) (Fin r) = Fin s /\ (s == b * r)%Q.
Proof.
  intros Hb. unfold fmul. cbn [is_nan is_inf is_zero orb signbit fval].
  rewrite (Qeq_bool_pos b Hb). cbn [orb].
  rewrite (signbit_nonneg b) by (by apply Qlt_le_weak).
  destruct (Qeq_bool r 0) eqn:Z.
  - rewrite (Qeq_bool_0_signbit r Z). exists 0%Q. split; [done |].
    apply Qeq_bool_eq in Z. rewrite Z. by rewrite Qmult_0_r.
  - eexists; split; [reflexivity |]. apply Qred_correct.
Qed.

Lemma fsub_Fin a b :
  exists m, fsub (Fin a) (Fin b) = Fin m /\ (m == a - b)%Q.
Proof.
  unfold fsub, fneg.
  destruct (Qeq_bool b 0) eqn:Z; cbn [fadd]; unfold fin;
    (eexists; split; [reflexivity |]); rewrite !Qred_correct.
  - apply Qeq_bool_eq in Z. rewrite Z. ring.
  - ring.
Qed.

(* one step of the exponential average, on finite numbers *)
Lemma ewm_step_Fin al y x :
  (0 < al)%Q -> (al < 1)%Q ->
  exists r, fadd (fmul (fsub (Fin 1) (Fin al)) (Fin y)) (fmul (Fin al) (Fin x))
            = Fin r /\
            (r == (1 - al) * y + al * x)%Q.
Proof.
  intros H0 H1.
  destruct (fsub_Fin 1 al) as (b & -> & Eb).
  assert (Hb : (0 < b)%Q) by lra.
  destruct (fmul_Fin_l b y Hb) as (s1 & -> & E1).
  destruct (fmul_Fin_l al x H0) as (s2 & -> & E2).
  cbn [fadd]. unfold fin. eexists; split; [reflexivity |].
  by rewrite Qred_correct, E1, E2, Eb.
Qed.

(* ... between two equal numbers *)
Lemma ewm_step_is_fin al q y x :
  (0 < al)%Q -> (al < 1)%Q -> is_fin q y -> is_fin q x ->
  is_fin q (fadd (fmul (fsub (Fin 1) (Fin al)) y) (fmul (Fin al) x)).
Proof.
  intros H0 H1 (r & -> & Hr) (s & -> & Hs).
  destruct (ewm_step_Fin al r s H0 H1) as (t & -> & Ht).
  exists t. split; [done |]. rewrite Ht, Hr, Hs. ring.
Qed.

Lemma ewm_from_is_fin al q xs :
  (0 < al)%Q -> (al < 1)%Q ->
  forall prev, is_fin q prev -> Forall (is_fin q) xs ->
               Forall (is_fin q) (pd.ewm_from (Fin al) prev xs).
Proof.
  intros H0 H1. induction xs as [| x t IH]; intros prev Hp HF;
    cbn [pd.ewm_from]; [constructor |].
  apply Forall_cons in HF as [Hx HF].
  pose proof (ewm_step_is_fin al q prev x H0 H1 Hp Hx) as Hy.
  apply Forall_cons. split; [done |]. by apply IH.
Qed.

Lemma ewm_mean_is_fin span al q xs :
  pd.alpha span = Fin al -> (0 < al)%Q -> (al < 1)%Q ->
  Forall (is_fin q) xs -> Forall (is_fin q) (pd.ewm_mean span xs).
Proof.
  intros Ea H0 H1 HF. destruct xs as [| x t]; [constructor |].
  cbn [pd.ewm_mean]. rewrite Ea.
  apply Forall_cons in HF as [Hx HF].
  apply Forall_cons. split; [done |]. by apply ewm_from_is_fin.
Qed.


Lemma MACD_line_flat q close i m :
  Forall (is_fin q) close -> MACD_line 12 26 close !! i = Some m -> m = Fin 0.
Proof.
  intros HF E. unfold MACD_line, pd.sub in E.
  apply lookup_zip_with_Some in E as (a & b & -> & Ea & Eb).
  apply (fsub_is_fin q).
  - eapply Forall_lookup_1; [| exact Ea].
    by apply (ewm_mean_is_fin 12 (2 # 13)).
  - eapply Forall_lookup_1; [| exact Eb].
    by apply (ewm_mean_is_fin 26 (2 # 27)).
Qed.

Lemma MACD_signal_line_flat q close i x :
  Forall (is_fin q) close ->
  MACD_signal_line 12 26 9 close !! i = Some x -> is_fin 0 x.
Proof.
  intros HF E. unfold MACD_signal_line in E.
  eapply Forall_lookup_1; [| exact E].
  apply (ewm_mean_is_fin 9 (1 # 5)); try done.
  apply Forall_lookup_2. intros j m Em.
  rewrite (MACD_line_flat q close j m HF Em). apply is_fin_refl.
Qed.

(* the sum of [n] numbers equal to [q] *)
Lemma fold_left_fadd_is_fin q l :
  Forall (is_fin q) l ->
  forall a, exists s,
    fold_left fadd l (Fin a) = Fin s /\
    (s == a + inject_Z (Z.of_nat (length l)) * q)%Q.
Proof.
  induction 1 as [| x t (r & -> & Hr) _ IH]; intros a.
  - exists a. split; [done |]. cbn [length]. ring.
  - cbn [fold_left fadd]. unfold fin.
    destruct (IH (Qred (a + r))) as (s & -> & Hs).
    exists s. split; [done |].
    cbn [length]. rewrite Hs, Qred_correct, Hr.
    rewrite Nat2Z.inj_succ. unfold Z.succ. rewrite inject_Z_plus. ring.
Qed.

Lemma rolling_mean_is_fin w q xs i x :
  0 < w -> Forall (is_fin q) xs ->
  pd.rolling_mean w xs !! i = Some x -> x = NaN \/ is_fin q x.
Proof.
  intros Hw HF E.
  assert (Hi : i < length xs).
  { apply lookup_lt_Some in E. by rewrite rolling_mean_length in E. }
  rewrite rolling_mean_lookup in E by done. injection E as <-.
  destruct (w <=? S i)%nat eqn:Hfull; cbn [andb]; [| by left].
  destruct (forallb _ _); [| by left]. right.
  apply Nat.leb_le in Hfull.
  assert (HW : Forall (is_fin q) (pd.window w i xs))
    by (unfold pd.window; by apply Forall_take, Forall_drop).
  assert (LW : length (pd.window w i xs) = w)
    by (unfold pd.window; rewrite length_take, length_drop; lia).
  destruct (pd.window w i xs) as [| y t]; [simpl in LW; lia |].
  apply Forall_cons in HW as [(r & -> & Hr) HW].
  cbn [pd.fsum].
  destruct (fold_left_fadd_is_fin q t HW r) as (s & -> & Hs).
  destruct (fdiv_of_nat s w Hw) as (m & -> & Hm).
  exists m. split; [done |].
  rewrite Hm, Hs, Hr, <- LW. cbn [length].
  rewrite Nat2Z.inj_succ. unfold Z.succ. rewrite inject_Z_plus.
  assert (0 <= inject_Z (Z.of_nat (length t)))%Q.
  { change 0%Q with (inject_Z 0). rewrite <- Zle_Qle. lia. }
  field. lra.
Qed.

(* the price changes of a flat market *)
Lemma diff_flat q xs i x :
  Forall (is_fin q) xs -> pd.diff xs !! i = Some x -> x = NaN \/ x = Fin 0.
Proof.
  intros HF E. destruct i as [| i].
  - destruct xs; [done |]. injection E as <-. by left.
  - destruct (diff_lookup_S_inv _ _ _ E) as (a & b & Ea & Eb & ->). right.
    apply (fsub_is_fin q); by eapply Forall_lookup_1.
Qed.

Lemma fadd_zero x y :
  is_zero x = true -> is_zero y = true -> is_zero (fadd x y) = true.
Proof.
  destruct x as [a | | | |], y as [b | | | |]; try done;
    cbn [is_zero fadd]; unfold fin; cbn [is_zero]; intros Ha Hb;
    apply Qeq_bool_iff; rewrite Qred_correct;
    try apply Qeq_bool_iff in Ha; try apply Qeq_bool_iff in Hb.
  - rewrite Ha, Hb. ring.
  - done.
  - done.
Qed.

Lemma fold_left_fadd_zero l :
  Forall (fun x => is_zero x = true) l ->
  forall a, is_zero a = true -> is_zero (fold_left fadd l a) = true.
Proof.
  induction 1 as [| x t Hx _ IH]; intros a Ha; [done |].
  cbn [fold_left]. apply IH. by apply fadd_zero.
Qed.

Lemma fdiv_zero_of_nat x w :
  0 < w -> is_zero x = true -> is_zero (fdiv x (of_nat w)) = true.
Proof.
  intros Hw Hz. destruct (of_nat_pos w Hw) as (q & -> & Hq).
  unfold fdiv.
  destruct x as [a | | | |]; try done;
    cbn [is_nan is_inf is_zero orb] in *;
    rewrite (Qeq_bool_pos q Hq), ?Hz; by destruct (xorb _ _).
Qed.

Lemma rolling_mean_zero w xs i x :
  0 < w -> Forall (fun x => is_zero x = true) xs ->
  pd.rolling_mean w xs !! i = Some x -> x = NaN \/ is_zero x = true.
Proof.
  intros Hw HF E.
  assert (Hi : i < length xs).
  { apply lookup_lt_Some in E. by rewrite rolling_mean_length in E. }
  rewrite rolling_mean_lookup in E by done. injection E as <-.
  destruct (_ && _); [| by left]. right.
  assert (HW : Forall (fun x => is_zero x = true) (pd.window w i xs))
    by (unfold pd.window; by apply Forall_take, Forall_drop).
  apply fdiv_zero_of_nat; [done |].
  destruct (pd.window w i xs) as [| y t]; [done |].
  apply Forall_cons in HW as [Hy HW]. cbn [pd.fsum].
  by apply fold_left_fadd_zero.
Qed.

Lemma RSI_gain_flat q close i g :
  Forall (is_fin q) close ->
  RSI_gain 14 close !! i = Some g -> g = NaN \/ is_zero g = true.
Proof.
  intros HF. unfold RSI_gain. apply rolling_mean_zero; [lia |].
  apply Forall_lookup_2. intros j x E. unfold pd.where_, pd.gt_scalar in E.
  apply lookup_zip_with_Some in E as (d & b & -> & Ed & Eb).
  rewrite list_lookup_fmap, Ed in Eb. injection Eb as <-.
  by destruct (diff_flat q close j d HF Ed) as [-> | ->].
Qed.

Lemma RSI_loss_flat q close i l :
  Forall (is_fin q) close ->
  RSI_loss 14 close !! i = Some l -> l = NaN \/ is_zero l = true.
Proof.
  intros HF. unfold RSI_loss. apply rolling_mean_zero; [lia |].
  apply Forall_lookup_2. intros j x E.
  unfold pd.neg, pd.where_, pd.lt_scalar in E.
  rewrite list_lookup_fmap in E.
  destruct (zip_with _ _ _ !! j) as [y |] eqn:Ey; [| done].
  injection E as <-.
  apply lookup_zip_with_Some in Ey as (d & b & -> & Ed & Eb).
  rewrite list_lookup_fmap, Ed in Eb. injection Eb as <-.
  by destruct (diff_flat q close j d HF Ed) as [-> | ->].
Qed.

Lemma rsi_of_undefined g l :
  g = NaN \/ is_zero g = true -> l = NaN \/ is_zero l = true ->
  rsi_of g l = NaN.
Proof.
  intros [-> | Hg] [-> | Hl]; try done.
  - unfold rsi_of, fdiv. by destruct g.
  - by apply rsi_of_flat.
Qed.

Lemma RSI_series_flat q close i r :
  Forall (is_fin q) close -> RSI_series 14 close !! i = Some r -> r = NaN.
Proof.
  intros HF E.
  assert (Hi : i < length close).
  { apply lookup_lt_Some in E. by rewrite RSI_series_length in E. }
  destruct (lookup_lt_is_Some_2 (RSI_gain 14 close) i) as [g Eg];
    [by rewrite RSI_gain_length |].
  destruct (lookup_lt_is_Some_2 (RSI_loss 14 close) i) as [l El];
    [by rewrite RSI_loss_length |].
  unfold RSI_series in E. rewrite (rsi_lookup 14 close i g l Eg El) in E.
  injection E as <-. apply rsi_of_undefined.
  - by apply (RSI_gain_flat q close i).
  - by apply (RSI_loss_flat q close i).
Qed.

(* equal numbers, or an undefined one: neither comparison holds *)
Lemma flt_is_fin q a b :
  a = NaN \/ is_fin q a -> b = NaN \/ is_fin q b -> flt a b = false.
Proof.
  intros [-> | (r & -> & Hr)] [-> | (s & -> & Hs)]; try done.
  unfold flt. rewrite fcmp_Fin.
  assert (E : (r == s)%Q) by (by rewrite Hr, Hs).
  apply Qeq_alt in E. by rewrite E.
Qed.

(* every signal of a flat market is 0 *)
Lemma pipeline_signal_flat q close i x :
  Forall (is_fin q) close -> pipeline_signal close !! i = Some x -> x = Fin 0.
Proof.
  intros HF E.
  assert (Hi : i < length close).
  { apply lookup_lt_Some in E. by rewrite pipeline_signal_length in E. }
  destruct (lookup_lt_is_Some_2 (pd.rolling_mean 20 close) i) as [a Ea];
    [by rewrite rolling_mean_length |].
  destruct (lookup_lt_is_Some_2 (pd.rolling_mean 50 close) i) as [b Eb];
    [by rewrite rolling_mean_length |].
  destruct (lookup_lt_is_Some_2 (RSI_series 14 close) i) as [r Er];
    [by rewrite RSI_series_length |].
  destruct (lookup_lt_is_Some_2 (MACD_line 12 26 close) i) as [m Em];
    [by rewrite MACD_line_length |].
  destruct (lookup_lt_is_Some_2 (MACD_signal_line 12 26 9 close) i)
    as [ms Ems]; [by rewrite MACD_signal_line_length |].
  unfold pipeline_signal in E.
  rewrite (signal_column_lookup _ _ _ _ _ _ i a b r m ms Hi Ea Eb Er Em Ems)
    in E.
  injection E as <-.
  pose proof (rolling_mean_is_fin 20 q close i a ltac:(lia) HF Ea) as Ha.
  pose proof (rolling_mean_is_fin 50 q close i b ltac:(lia) HF Eb) as Hb.
  rewrite (RSI_series_flat q close i r HF Er).
  rewrite (MACD_line_flat q close i m HF Em).
  pose proof (MACD_signal_line_flat q close i ms HF Ems) as Hms.
  unfold spec_rules, fgt.
  rewrite (flt_is_fin q b a Hb Ha).
  rewrite (flt_is_fin 0 ms (Fin 0) (or_intror Hms)
             (or_intror (is_fin_refl 0))).
  rewrite (flt_is_fin 0 (Fin 0) ms (or_intror (is_fin_refl 0))
             (or_intror Hms)).
  done.
Qed.

(* the total of a row without shares *)
Lemma total_without_shares c q :
  exists t, fadd (Fin c) (fmul (Fin 0) (Fin q)) = Fin t /\ (t == c)%Q.
Proof.
  unfold fmul. cbn [is_nan is_inf orb].
  change (is_zero (Fin 0)) with true. cbn [orb].
  destruct (xorb _ _); cbn [fzero fadd]; unfold fin;
    (eexists; split; [reflexivity |]); rewrite Qred_correct;
    [reflexivity | ring].
Qed.

(** X16.  A flat market: when every close is the same finite number, no rule
    of the strategy fires (the two moving averages are equal or undefined,
    the RSI is undefined since average gain and average loss are both zero,
    and MACD and its signal line are zero), so every signal is 0, no order
    is placed, every row of the portfolio holds the initial capital and no
    shares, and the script prints the initial capital. *)
Theorem flat_market_never_trades h ld c q N :
  has_col h ld "Close" (replicate N (Fin q)) ->
  exists a,
    value (pipeline_signals_of ld h) =
      inr (replicate N (Fin 0), pd.diff (replicate N (Fin 0))) /\
    value (simulate ld (Fin c) h) = inr a /\
    (forall i, i < N ->
       cash a !! i = Some (Fin c) /\ holdings a !! i = Some (Fin 0) /\
       exists t, total a !! i = Some (Fin t) /\ (t == c)%Q) /\
    (0 < N ->
     exists t, value (printed_total ld (Fin c) h) = inr (Fin t) /\ (t == c)%Q).
Proof.
  intros Hc. set (close := replicate N (Fin q)) in *.
  assert (HF : Forall (is_fin q) close)
    by (apply Forall_replicate, is_fin_refl).
  assert (Lc : length close = N) by apply length_replicate.
  assert (Esig : pipeline_signal close = replicate N (Fin 0)).
  { symmetry. apply replicate_as_Forall.
    split; [by rewrite pipeline_signal_length |].
    apply Forall_lookup_2. intros i x E. symmetry.
    by apply (pipeline_signal_flat q close i). }
  set (ps := pd.diff (replicate N (Fin 0))).
  assert (Lps : length ps = N)
    by (unfold ps; by rewrite diff_length, length_replicate).
  assert (Hps : forall i p, ps !! i = Some p ->
                  feqb p (Fin 1) = false /\ feqb p (Fin (-1)) = false).
  { intros i p E.
    by destruct (diff_flat 0 (replicate N (Fin 0)) i p
                   (Forall_replicate _ _ _ (is_fin_refl 0)) E) as [-> | ->]. }
  destruct (turns_lengths close ps (Fin c) (N - 1)) as (L1 & L2 & L3).
  rewrite Lps in L1, L2, L3.
  assert (Rows : forall i, i < N ->
            cash (turns close ps (Fin c) (N - 1)) !! i = Some (Fin c) /\
            holdings (turns close ps (Fin c) (N - 1)) !! i = Some (Fin 0) /\
            exists t, total (turns close ps (Fin c) (N - 1)) !! i =
                        Some (Fin t) /\ (t == c)%Q).
  { intros [| j] Hi.
    - destruct (turns_first close ps (Fin c) (N - 1)) as (F1 & F2 & F3);
        [lia |].
      split; [done |]. split; [done |]. by exists c.
    - destruct (lookup_lt_is_Some_2 ps j) as [p Ep]; [lia |].
      destruct (lookup_lt_is_Some_2
                  (cash (turns close ps (Fin c) (N - 1))) j) as [c0 Ec];
        [lia |].
      destruct (lookup_lt_is_Some_2
                  (holdings (turns close ps (Fin c) (N - 1))) j) as [h0 Eh];
        [lia |].
      assert (Ex : close !! j = Some (Fin q))
        by (apply lookup_replicate_2; lia).
      destruct (Hps j p Ep) as [N1 N2].
      destruct (turns_row close ps (Fin c) (N - 1) j p (Fin q) c0 h0)
        as (R1 & R2 & R3); try done; try lia.
      rewrite N1, N2 in R1. rewrite N1 in R2. rewrite N1, N2 in R3.
      split; [done |]. split; [done |].
      destruct (total_without_shares c q) as (t & Et & Ht).
      exists t. by rewrite R3, Et. }
  eexists. split; [| split; [| split]].
  - rewrite (pipeline_signals_run h ld close Hc). by rewrite Esig.
  - rewrite (simulate_run h ld (Fin c) close Hc). rewrite Esig, Lc.
    reflexivity.
  - exact Rows.
  - intros HN. rewrite (printed_total_run h ld (Fin c) close Hc).
    rewrite Esig, Lc. fold ps. rewrite last_lookup, L3.
    destruct (Rows (pred N)) as (_ & _ & t & -> & Ht); [lia |].
    by exists t.
Qed.

Lemma flat_market_never_trades_witness :
  let close := replicate 60 (Fin 10) in
  has_col (price_table close) 0 "Close" (replicate 60 (Fin 10)) /\
  exists a,
    value (pipeline_signals_of 0 (price_table close)) =
      inr (replicate 60 (Fin 0), pd.diff (replicate 60 (Fin 0))) /\
    value (simulate 0 (Fin 100) (price_table close)) = inr a /\
    (forall i, i < 60 ->
       cash a !! i = Some (Fin 100) /\ holdings a !! i = Some (Fin 0) /\
       exists t, total a !! i = Some (Fin t) /\ (t == 100)%Q) /\
    (0 < 60 ->
     exists t, value (printed_total 0 (Fin 100) (price_table close)) =
                 inr (Fin t) /\ (t == 100)%Q).
Proof.
  intros close.
  assert (Hc : has_col (price_table close) 0 "Close" (replicate 60 (Fin 10)))
    by (eexists; repeat split; reflexivity).
  split; [assumption |].
  exact (flat_market_never_trades _ 0 100 10 60 Hc).
Defined.

(** ** Orders without a position guard *)

Lemma fmul_zero_pos x : (0 < x)%Q -> fmul (Fin 0) (Fin x) = Fin 0.
Proof.
  intros Hx. unfold fmul. cbn [is_nan is_inf orb].
  change (is_zero (Fin 0)) with true. cbn [orb signbit].
  by rewrite (signbit_nonneg x) by (by apply Qlt_le_weak).
Qed.

(** X17.  Shares are held for one row only, the row after a buy: after every
    other step the holdings are 0.  A sell has no guard on the holdings, so
    a sell that finds none (any sell that does not come right after a buy)
    writes cash = 0 * close: the next row has no cash, no shares and a total
    of 0. *)
Theorem sell_without_shares_empties_the_account h ld ls cap close ps :
  has_col h ld "Close" close -> has_col h ls "positions" ps ->
  length ps <= length close ->
  exists a,
    value (trajectory ld ls cap h) = inr a /\
    (forall i p,
       S i < length ps -> ps !! i = Some p -> feqb p (Fin 1) = false ->
       holdings a !! S i = Some (Fin 0)) /\
    (forall i p x,
       S i < length ps -> ps !! i = Some p -> close !! i = Some (Fin x) ->
       (0 < x)%Q ->
       feqb p (Fin 1) = false -> feqb p (Fin (-1)) = true ->
       holdings a !! i = Some (Fin 0) ->
       cash a !! S i = Some (Fin 0) /\ holdings a !! S i = Some (Fin 0) /\
       total a !! S i = Some (Fin 0)).
Proof.
  intros Hc Hp Hl.
  eexists; split;
    [exact (trajectory_run h ld ls cap close ps Hc Hp (or_introl Hl)) |].
  destruct (turns_lengths close ps cap (length ps - 1)) as (L1 & L2 & _).
  split.
  - intros i p Hi Ep N1.
    destruct (lookup_lt_is_Some_2 close i) as [x Ex]; [lia |].
    destruct (lookup_lt_is_Some_2
                (cash (turns close ps cap (length ps - 1))) i) as [c Ec];
      [lia |].
    destruct (lookup_lt_is_Some_2
                (holdings (turns close ps cap (length ps - 1))) i) as [hl Eh];
      [lia |].
    destruct (turns_row close ps cap (length ps - 1) i p x c hl)
      as (_ & R2 & _); try done; [lia |].
    by rewrite N1 in R2.
  - intros i p x Hi Ep Ex Hx N1 Sl Eh.
    destruct (lookup_lt_is_Some_2
                (cash (turns close ps cap (length ps - 1))) i) as [c Ec];
      [lia |].
    destruct (turns_row close ps cap (length ps - 1) i p (Fin x) c (Fin 0))
      as (R1 & R2 & R3); try done; [lia |].
    rewrite N1, Sl in R1. rewrite N1 in R2. rewrite N1, Sl in R3.
    rewrite (fmul_zero_pos x Hx) in R1, R3. done.
Qed.

Lemma sell_without_shares_empties_the_account_witness :
  let close := [Fin 10; Fin 20; Fin 30] in
  let ps := [NaN; Fin (-1); Fin 0] in
  has_col (market close ps) 0 "Close" close /\
  has_col (market close ps) 1 "positions" ps /\
  length ps <= length close /\
  exists a,
    value (trajectory 0 1 (Fin 100) (market close ps)) = inr a /\
    (forall i p,
       S i < length ps -> ps !! i = Some p -> feqb p (Fin 1) = false ->
       holdings a !! S i = Some (Fin 0)) /\
    (forall i p x,
       S i < length ps -> ps !! i = Some p -> close !! i = Some (Fin x) ->
       (0 < x)%Q ->
       feqb p (Fin 1) = false -> feqb p (Fin (-1)) = true ->
       holdings a !! i = Some (Fin 0) ->
       cash a !! S i = Some (Fin 0) /\ holdings a !! S i = Some (Fin 0) /\
       total a !! S i = Some (Fin 0)).
Proof.
  intros close ps.
  assert (Hc : has_col (market close ps) 0 "Close" close)
    by (eexists; repeat split; reflexivity).
  assert (Hp : has_col (market close ps) 1 "positions" ps)
    by (eexists; repeat split; reflexivity).
  assert (Hl : length ps <= length close) by (simpl; lia).
  do 3 (split; [assumption |]).
  exact (sell_without_shares_empties_the_account _ 0 1 (Fin 100) close ps
           Hc Hp Hl).
Defined.

(* the trajectory of the witness: the sell at step 1 finds no shares *)
Example sold_nothing_at_20 :
  value (trajectory 0 1 (Fin 100)
           (market [Fin 10; Fin 20; Fin 30] [NaN; Fin (-1); Fin 0])) =
  inr (Account [Fin 100; Fin 100; Fin 0]
               [Fin 0; Fin 0; Fin 0]
               [Fin 100; Fin 100; Fin 0]).
Proof. vm_compute. reflexivity. Qed.

(** ** The first order of the script *)








(* three falling closes: the script sells what it does not hold and reports
   a total of 0 *)
Example script_on_three_falling_rows :
  value (simulate 0 (Fin 100) (price_table [Fin 3; Fin 2; Fin 1])) =
    inr (Account [Fin 100; Fin 100; Fin 0]
                 [Fin 0; Fin 0; Fin 0]
                 [Fin 100; Fin 100; Fin 0]) /\
  value (printed_total 0 (Fin 100) (price_table [Fin 3; Fin 2; Fin 1])) =
    inr (Fin 0).
Proof. split; vm_compute; reflexivity. Qed.
